(** * Folding wall: strip layout and per-frame strip kinematics

    Shallow embedding of [src/components/FoldStrip.tsx] and of the
    [FoldingWall] component of [src/components/Scene3D.tsx].

    Numbers.  The program computes with JavaScript numbers.  They are
    idealised here as real numbers ([R]); strip indices and strip counts,
    which the program only ever builds as non-negative integers
    ([Array.from({ length: STRIP_COUNT }, (_, i) => i)]), are [nat] and enter
    the arithmetic through [INR].  Every statement below is therefore a
    statement about the exact arithmetic of the formulas, not about rounding.
    The layout formulas, which use only [+ - * /], are embedded a second time
    in module [Binary64] over IEEE 754 binary64, the program's own number
    type, to evaluate the specification's scenario; quotients that are not
    dyadic are rounded there, and equalities between them hold up to
    rounding only.

    State.  A [FoldStrip] instance owns two [useRef] cells
    ([targetRotation], [targetX]) and one mesh reference; its frame callback
    is embedded as a function from the instance's cells to their new
    contents. *)

From Stdlib Require Import Reals Lra Lia List Arith.
From Stdlib Require Import ZArith PrimFloat Uint63.
Import ListNotations.
Local Open Scope R_scope.

(** ** The parts of three.js and of the fiber root state the program uses *)

Module THREE.

Record Vector2 : Type := mkVector2 { x : R; y : R }.

(** [Vector2.set (x, y)] overwrites both components. *)
Definition set (_ : Vector2) (x' y' : R) : Vector2 := mkVector2 x' y'.

(** A texture, as far as the strips parameterise it: the UV window. *)
Record Texture : Type := mkTexture { repeat : Vector2; offset : Vector2 }.

(** [texture.clone()] copies the UV window into a fresh object. *)
Definition clone (t : Texture) : Texture := mkTexture (repeat t) (offset t).

(** The transform components of a mesh that the frame callback touches:
    [rotation.x], [rotation.y], [position.x], [position.z]. *)
Record Mesh : Type := mkMesh {
  rotation_x : R;
  rotation_y : R;
  position_x : R;
  position_z : R
}.

Module MathUtils.
(** [MathUtils.lerp (x, y, t) = (1 - t) * x + t * y]; [t] is used as
    given, it is not clamped. *)
Definition lerp (x y t : R) : R := (1 - t) * x + t * y.
End MathUtils.

End THREE.

(** What a frame callback reads from the renderer: the clock, the pointer in
    normalised device coordinates and the viewport width. *)
Record RootState : Type := mkRootState {
  clock_elapsedTime : R;
  pointer : THREE.Vector2;
  viewport_width : R
}.

(** ** FoldStrip.tsx *)

Record GlobalConfig : Type := mkGlobalConfig { maxFoldAngle : R }.

Record FoldStripProps : Type := mkFoldStripProps {
  index : nat;
  totalStrips : nat;
  texture : THREE.Texture;
  width : R;
  height : R;
  globalConfig : GlobalConfig
}.

(** The mutable cells of one [FoldStrip] instance. *)
Record Refs : Type := mkRefs {
  targetRotation : R;
  targetX : R;
  meshRef : option THREE.Mesh
}.

Section FoldStrip.

Variable props : FoldStripProps.

(** Lines 37-45: the strip's own clone of the texture. *)
Definition stripTexture : THREE.Texture :=
  let t := THREE.clone (texture props) in
  let t := THREE.mkTexture
             (THREE.set (THREE.repeat t) (1 / INR (totalStrips props)) 1)
             (THREE.offset t) in
  let t := THREE.mkTexture
             (THREE.repeat t)
             (THREE.set (THREE.offset t)
                        (INR (index props) / INR (totalStrips props)) 0) in
  t.

(** Line 47. *)
Definition stripWidth : R := width props / INR (totalStrips props).

(** Line 58. *)
Definition initialX : R :=
  - width props / 2 + (INR (index props) * stripWidth) + (stripWidth / 2).

(** Line 144: the mesh as it is mounted, [position={[initialX, 0, 0]}].
    Both refs start at 0 (lines 50-51). *)
Definition mounted : Refs :=
  mkRefs 0 0 (Some (THREE.mkMesh 0 0 initialX 0)).

Section Frame.

Variable state : RootState.
Variable delta : R.

(** Line 67. *)
Definition mouseX : R :=
  THREE.x (pointer state) * viewport_width state / 2.

(** Line 70. *)
Definition normMouse : R := THREE.x (pointer state).

(** Line 78. *)
Definition time : R := clock_elapsedTime state.

(** Line 84. *)
Definition wave : R := sin (time * 0.5 + INR (index props) * 0.1) * 0.1.

(** Line 85. *)
Definition mouseInfluence : R := (normMouse + 1) / 2.

(** Lines 90-91. *)
Definition distToMouse : R := Rabs (initialX - mouseX).
Definition proximity : R :=
  Rmax 0 (1 - distToMouse / (width props * 0.8)).

(** Line 95: [index % 2 === 0 ? 1 : -1]. *)
Definition dir : R := if (index props mod 2 =? 0)%nat then 1 else -1.

(** Line 100. *)
Definition compression : R :=
  Rmax 0 (Rmin 1 (Rabs (THREE.x (pointer state)) * 1.5)).

(** Line 102. *)
Definition angle : R :=
  dir * (maxFoldAngle (globalConfig props) * compression + (wave * 0.2)).

(** Line 139. *)
Definition tilt : R := THREE.y (pointer state) * 0.2.

(** Lines 60-141: the frame callback.  [absAngle], [newX] and [zOffset]
    are computed from the rotation cell after it has been written.  The
    callback also computes [mouseX], [normMouse], [mouseInfluence],
    [distToMouse], [proximity] and [projectedWidth], and uses none of them. *)
Definition useFrame (refs : Refs) : Refs :=
  match meshRef refs with
  | None => refs
  | Some mesh =>
      let targetRotation' :=
        THREE.MathUtils.lerp (targetRotation refs) angle (10 * delta) in
      let mesh :=
        THREE.mkMesh (THREE.rotation_x mesh) targetRotation'
                     (THREE.position_x mesh) (THREE.position_z mesh) in
      let absAngle := Rabs targetRotation' in
      let projectedWidth := stripWidth * cos absAngle in
      let compressionRatio := cos absAngle in
      let newX := initialX * compressionRatio in
      let zOffset := sin absAngle * (stripWidth * 0.25) * dir in
      let targetX' :=
        THREE.MathUtils.lerp (targetX refs) newX (8 * delta) in
      let mesh :=
        THREE.mkMesh (THREE.rotation_x mesh) (THREE.rotation_y mesh)
                     targetX' (THREE.position_z mesh) in
      let mesh :=
        THREE.mkMesh (THREE.rotation_x mesh) (THREE.rotation_y mesh)
                     (THREE.position_x mesh)
                     (THREE.MathUtils.lerp (THREE.position_z mesh) zOffset
                                           (8 * delta)) in
      let mesh :=
        THREE.mkMesh (THREE.MathUtils.lerp (THREE.rotation_x mesh) tilt
                                           (5 * delta))
                     (THREE.rotation_y mesh)
                     (THREE.position_x mesh) (THREE.position_z mesh) in
      mkRefs targetRotation' targetX' (Some mesh)
  end.

End Frame.

End FoldStrip.

(** ** Scene3D.tsx: the wall *)

Record WallConfig : Type := mkWallConfig {
  stripCount : nat;
  wallWidth : R;
  wallHeight : R;
  wallMaxFoldAngle : R
}.

(** Lines 25-27 and 43: the configuration the scene is built with. *)
Definition STRIP_COUNT : nat := 24.
Definition WALL_WIDTH : R := 12.
Definition WALL_HEIGHT : R := 8.
Definition sceneConfig : WallConfig :=
  mkWallConfig STRIP_COUNT WALL_WIDTH WALL_HEIGHT (PI / 2.2).

(** Line 30: [Array.from({ length: n }, (_, i) => i)]. *)
Definition strips (n : nat) : list nat := seq 0 n.

(** Lines 34-46: one [FoldStrip] per index, all with the same dimensions. *)
Definition FoldingWall (cfg : WallConfig) (tex : THREE.Texture)
  : list FoldStripProps :=
  map (fun i =>
         mkFoldStripProps i (stripCount cfg) tex (wallWidth cfg)
                          (wallHeight cfg)
                          (mkGlobalConfig (wallMaxFoldAngle cfg)))
      (strips (stripCount cfg)).

(** ** The specification's view of the program's data *)

Record StripLayout : Type := mkStripLayout {
  layoutIndex : nat;
  flatCenterX : R;
  textureOffsetU : R;
  textureRepeatU : R
}.

Definition layout (p : FoldStripProps) : StripLayout :=
  mkStripLayout (index p) (initialX p)
                (THREE.x (THREE.offset (stripTexture p)))
                (THREE.x (THREE.repeat (stripTexture p))).

Definition generate (cfg : WallConfig) (tex : THREE.Texture)
  : list StripLayout :=
  map layout (FoldingWall cfg tex).

(** The four smoothed components of a strip. *)
Definition currentRotationY (r : Refs) : R := targetRotation r.
Definition currentPositionX (r : Refs) : R := targetX r.
Definition currentPositionZ (r : Refs) : R :=
  match meshRef r with Some m => THREE.position_z m | None => 0 end.
Definition currentTiltX (r : Refs) : R :=
  match meshRef r with Some m => THREE.rotation_x m | None => 0 end.

(** A strip whose mesh is attached, by its four smoothed components.  The
    mesh copies of the rotation and of the X position are whatever the
    previous frame left there. *)
Definition attached (rotY posX posZ tiltX meshRotY meshPosX : R) : Refs :=
  mkRefs rotY posX (Some (THREE.mkMesh tiltX meshRotY meshPosX posZ)).

(** [n] successive frames with the same root state and frame delta. *)
Definition frames (p : FoldStripProps) (st : RootState) (delta : R)
  (n : nat) (r : Refs) : Refs :=
  Nat.iter n (useFrame p st delta) r.

(** [clamp v lo hi], by cases. *)
Definition clamp (v lo hi : R) : R :=
  if Rlt_dec v lo then lo else if Rlt_dec hi v then hi else v.

(** *** The smoothing step as the specification words it *)

Record InputSample : Type := mkInputSample {
  pointerX : R;
  pointerY : R;
  elapsedTime : R;
  frameDelta : R
}.

Record StripSmoothingState : Type := mkStripSmoothingState {
  rotationY : R;
  positionX : R;
  positionZ : R;
  tiltX : R
}.

Definition smoothingState (r : Refs) : StripSmoothingState :=
  mkStripSmoothingState (currentRotationY r) (currentPositionX r)
                        (currentPositionZ r) (currentTiltX r).

Definition inputSample (st : RootState) (delta : R) : InputSample :=
  mkInputSample (THREE.x (pointer st)) (THREE.y (pointer st))
                (clock_elapsedTime st) delta.

(** Section 4.2 of the specification, steps 1 to 9, word for word: every
    interpolation factor is [min (1, k * frameDelta)]. *)
Definition specUpdate (specStripWidth specMaxFoldAngle : R) (l : StripLayout)
  (s : StripSmoothingState) (input : InputSample) : StripSmoothingState :=
  let specDir := if Nat.even (layoutIndex l) then 1 else -1 in
  let specCompression := clamp (Rabs (pointerX input) * 1.5) 0 1 in
  let specWave :=
    sin (elapsedTime input * 0.5 + INR (layoutIndex l) * 0.1) * 0.1 in
  let targetAngle :=
    specDir * (specMaxFoldAngle * specCompression + specWave * 0.2) in
  let rotY :=
    THREE.MathUtils.lerp (rotationY s) targetAngle
                         (Rmin 1 (10 * frameDelta input)) in
  let specTargetX := flatCenterX l * cos (Rabs rotY) in
  let specTargetZ := sin (Rabs rotY) * (specStripWidth * 0.25) * specDir in
  let posX :=
    THREE.MathUtils.lerp (positionX s) specTargetX
                         (Rmin 1 (8 * frameDelta input)) in
  let posZ :=
    THREE.MathUtils.lerp (positionZ s) specTargetZ
                         (Rmin 1 (8 * frameDelta input)) in
  let targetTilt := pointerY input * 0.2 in
  let tlt :=
    THREE.MathUtils.lerp (tiltX s) targetTilt
                         (Rmin 1 (5 * frameDelta input)) in
  mkStripSmoothingState rotY posX posZ tlt.

(** *** Repeated frames with the input held constant *)

(** Where a strip comes to rest under a constant root state: the rotation at
    the frame's target angle, the positions at the targets that angle gives,
    the tilt at its target. *)
Definition restState (p : FoldStripProps) (st : RootState)
  : StripSmoothingState :=
  mkStripSmoothingState
    (angle p st)
    (initialX p * cos (Rabs (angle p st)))
    (sin (Rabs (angle p st)) * (stripWidth p * 0.25) * dir p)
    (tilt st).

(** The strip, started from [r0] and updated every frame with the same root
    state and frame delta, settles to [s]: each smoothed component comes and
    stays within any tolerance of the corresponding component of [s] after
    finitely many frames. *)
Definition settlesTo (p : FoldStripProps) (st : RootState) (delta : R)
  (r0 : Refs) (s : StripSmoothingState) : Prop :=
  Un_cv (fun n => currentRotationY (frames p st delta n r0)) (rotationY s) /\
  Un_cv (fun n => currentPositionX (frames p st delta n r0)) (positionX s) /\
  Un_cv (fun n => currentPositionZ (frames p st delta n r0)) (positionZ s) /\
  Un_cv (fun n => currentTiltX (frames p st delta n r0)) (tiltX s).

(** *** The layout in binary64 *)

Module Binary64.

(** A strip index or strip count as a JavaScript number (exact below
    [2^53]). *)
Definition ofNat (n : nat) : float :=
  PrimFloat.of_uint63 (Uint63.of_Z (Z.of_nat n)).

(** Line 47. *)
Definition stripWidth (width : float) (totalStrips : nat) : float :=
  (width / ofNat totalStrips)%float.

(** Line 58. *)
Definition initialX (width : float) (totalStrips index : nat) : float :=
  (- width / 2 + (ofNat index * stripWidth width totalStrips)
   + (stripWidth width totalStrips / 2))%float.

(** Line 41: [repeat.x]. *)
Definition repeatX (totalStrips : nat) : float :=
  (1 / ofNat totalStrips)%float.

(** Line 43: [offset.x]. *)
Definition offsetX (totalStrips index : nat) : float :=
  (ofNat index / ofNat totalStrips)%float.

End Binary64.

(** *** Frames with changing input *)

(** What one rendered frame hands to the callback: the root state and the
    frame delta. *)
Definition FrameInput : Type := (RootState * R)%type.

(** The callback of one strip over successive frames, each with its own root
    state and delta. *)
Definition run (p : FoldStripProps) (fs : list FrameInput) (r : Refs) : Refs :=
  fold_left (fun r f => useFrame p (fst f) (snd f) r) fs r.

(** Lines 115-130 as functions of the rotation the frame has just written:
    the projected strip width, the X target and the Z target. *)
Definition projectedWidth (p : FoldStripProps) (rot : R) : R :=
  stripWidth p * cos (Rabs rot).
Definition newX (p : FoldStripProps) (rot : R) : R :=
  initialX p * cos (Rabs rot).
Definition zOffset (p : FoldStripProps) (rot : R) : R :=
  sin (Rabs rot) * (stripWidth p * 0.25) * dir p.

(** The largest magnitude line 102 can give the target angle: the fold at
    full compression plus the wave's share. *)
Definition angleBound (p : FoldStripProps) : R :=
  Rabs (maxFoldAngle (globalConfig p)) + 0.02.

(** ** Concrete configurations, strips and inputs *)

(** The scenario of the specification: four strips on a wall of width 8. *)
Definition wall4 (a : R) : WallConfig := mkWallConfig 4 8 4 a.
Definition plainTexture : THREE.Texture :=
  THREE.mkTexture (THREE.mkVector2 1 1) (THREE.mkVector2 0 0).

(** Concrete strips and inputs used to instantiate the statements: strip
    [i] of a four-strip wall of width 8 with maximal fold angle 1, and a root
    state with the given pointer and clock. *)
Definition strip (i : nat) : FoldStripProps :=
  mkFoldStripProps i 4 plainTexture 8 4 (mkGlobalConfig 1).
Definition rootState (pointerX pointerY elapsed : R) : RootState :=
  mkRootState elapsed (THREE.mkVector2 pointerX pointerY) 16.

(** * Properties *)

(** ** Wall layout *)

Section Layout.

Variable cfg : WallConfig.
Variable tex : THREE.Texture.

Let N := stripCount cfg.
Let W := wallWidth cfg.

Lemma FoldingWall_length : length (FoldingWall cfg tex) = stripCount cfg.
Proof. unfold FoldingWall, strips. now rewrite length_map, length_seq. Qed.

Lemma FoldingWall_nth i :
  (i < stripCount cfg)%nat ->
  nth_error (FoldingWall cfg tex) i =
  Some (mkFoldStripProps i (stripCount cfg) tex (wallWidth cfg)
                         (wallHeight cfg)
                         (mkGlobalConfig (wallMaxFoldAngle cfg))).
Proof.
  intros Hi. unfold FoldingWall, strips.
  rewrite nth_error_map, nth_error_seq.
  apply Nat.ltb_lt in Hi. now rewrite Hi.
Qed.

Lemma generate_length : length (generate cfg tex) = stripCount cfg.
Proof. unfold generate. rewrite length_map. apply FoldingWall_length. Qed.

Lemma generate_indices :
  map layoutIndex (generate cfg tex) = seq 0 (stripCount cfg).
Proof.
  unfold generate, FoldingWall, strips.
  rewrite !map_map. cbn. apply map_id.
Qed.

Lemma generate_nth i :
  (i < stripCount cfg)%nat ->
  nth_error (generate cfg tex) i =
  Some (mkStripLayout i
          (- W / 2 + INR i * (W / INR N) + W / INR N / 2)
          (INR i / INR N)
          (1 / INR N)).
Proof.
  intros Hi. unfold generate.
  rewrite nth_error_map, (FoldingWall_nth i Hi). reflexivity.
Qed.

Lemma generate_nth_inv i l :
  nth_error (generate cfg tex) i = Some l ->
  (i < stripCount cfg)%nat /\
  l = mkStripLayout i
        (- W / 2 + INR i * (W / INR N) + W / INR N / 2)
        (INR i / INR N)
        (1 / INR N).
Proof.
  intros H.
  assert (Hi : (i < stripCount cfg)%nat).
  { rewrite <- generate_length. apply nth_error_Some. congruence. }
  split; [exact Hi|].
  rewrite (generate_nth i Hi) in H. congruence.
Qed.

End Layout.

(** Consecutive intervals of width [sw] starting at [a] leave no point of
    [[a, a + k * sw]] uncovered. *)
Lemma consecutive_intervals_cover a sw k x :
  (0 < k)%nat ->
  a <= x <= a + INR k * sw ->
  exists i, (i < k)%nat /\ a + INR i * sw <= x <= a + INR (S i) * sw.
Proof.
  induction k as [|k IH]; intros Hk Hx; [lia|].
  destruct k as [|k].
  - exists 0%nat. split; [lia|]. cbn in *. lra.
  - destruct (Rle_dec x (a + INR (S k) * sw)) as [Hle|Hgt].
    + destruct IH as (i & Hi & Hxi); [lia|lra|].
      exists i. split; [lia|exact Hxi].
    + exists (S k). split; [lia|]. lra.
Qed.

(** C1.  For a configuration with a positive strip count and a positive wall
    width, the generated layouts are exactly [stripCount] many, in ascending
    index order; strip [i] has its flat centre at
    [-wallWidth/2 + i*stripWidth + stripWidth/2] with
    [stripWidth = wallWidth/stripCount]; every strip interval
    [flatCenterX - stripWidth/2, flatCenterX + stripWidth/2] has positive
    length, the first starts at [-wallWidth/2], each one ends where the next
    starts, and the last ends at [wallWidth/2]; an earlier strip ends no
    later than a later one starts, and every point of
    [[-wallWidth/2, wallWidth/2]] lies in some strip interval.  With four
    strips and width 8 the strip width is 2 and the centres are
    -3, -1, 1, 3, also when evaluated in binary64. *)
Theorem C1_layout_tiles_wall (cfg : WallConfig) (tex : THREE.Texture) :
  (0 < stripCount cfg)%nat ->
  0 < wallWidth cfg ->
  let N := stripCount cfg in
  let W := wallWidth cfg in
  let sw := W / INR N in
  let ls := generate cfg tex in
  length ls = N /\
  map layoutIndex ls = seq 0 N /\
  (forall i, (i < N)%nat ->
     exists l, nth_error ls i = Some l /\ layoutIndex l = i /\
               flatCenterX l = - W / 2 + INR i * sw + sw / 2 /\
               flatCenterX l - sw / 2 < flatCenterX l + sw / 2) /\
  (exists l, nth_error ls 0 = Some l /\ flatCenterX l - sw / 2 = - W / 2) /\
  (forall i, (S i < N)%nat ->
     exists l l', nth_error ls i = Some l /\ nth_error ls (S i) = Some l' /\
                  flatCenterX l + sw / 2 = flatCenterX l' - sw / 2) /\
  (exists l, nth_error ls (N - 1) = Some l /\
             flatCenterX l + sw / 2 = W / 2) /\
  (forall i j l l', (i < j)%nat ->
     nth_error ls i = Some l -> nth_error ls j = Some l' ->
     flatCenterX l + sw / 2 <= flatCenterX l' - sw / 2) /\
  (forall x, - W / 2 <= x <= W / 2 ->
     exists i l, nth_error ls i = Some l /\
                 flatCenterX l - sw / 2 <= x <= flatCenterX l + sw / 2) /\
  (forall a,
     map (fun p => stripWidth p) (FoldingWall (wall4 a) tex) = [2; 2; 2; 2] /\
     map flatCenterX (generate (wall4 a) tex) = [-3; -1; 1; 3]) /\
  (Binary64.stripWidth 8 4 = 2%float /\
   map (Binary64.initialX 8 4) (strips 4) = [-3; -1; 1; 3]%float).
Proof.
  intros HN HW N W sw ls.
  assert (HNR : 0 < INR N) by (apply lt_0_INR; exact HN).
  assert (Hsw : 0 < sw) by (apply Rdiv_lt_0_compat; assumption).
  split; [apply generate_length|].
  split; [apply generate_indices|].
  split.
  { intros i Hi. eexists. split; [apply generate_nth; exact Hi|].
    cbn. fold N W sw. repeat split. lra. }
  split.
  { eexists. split; [apply generate_nth; exact HN|].
    cbn. fold N W sw. lra. }
  split.
  { intros i Hi. do 2 eexists.
    split; [apply generate_nth; unfold N in Hi; lia|].
    split; [apply generate_nth; exact Hi|].
    cbn -[INR]. fold N W sw. rewrite S_INR. lra. }
  split.
  { eexists. split; [apply generate_nth; lia|].
    cbn -[INR]. fold N W sw.
    rewrite minus_INR by (unfold N; lia). cbn.
    unfold sw. field. lra. }
  split.
  { intros i j l l' Hij Hl Hl'.
    apply generate_nth_inv in Hl, Hl'.
    destruct Hl as (_ & ->), Hl' as (_ & ->). cbn -[INR]. fold N W sw.
    assert (INR (S i) <= INR j) by (apply le_INR; lia).
    rewrite S_INR in *. nra. }
  split.
  { intros x Hx.
    destruct (consecutive_intervals_cover (- W / 2) sw N x HN)
      as (i & Hi & Hxi).
    { replace (INR N * sw) with W by (unfold sw; field; lra). lra. }
    exists i. eexists. split; [apply generate_nth; exact Hi|].
    cbn -[INR]. fold N W sw. rewrite S_INR in Hxi. lra. }
  split.
  { intros a. split.
    - cbn. unfold stripWidth. cbn. repeat f_equal; lra.
    - cbn. unfold initialX, stripWidth. cbn. repeat f_equal; lra. }
  split; vm_compute; reflexivity.
Qed.

Lemma C1_layout_tiles_wall_witness :
  (0 < stripCount (wall4 1))%nat /\ 0 < wallWidth (wall4 1) /\
  length (generate (wall4 1) plainTexture) = 4%nat /\
  map layoutIndex (generate (wall4 1) plainTexture) = [0; 1; 2; 3]%nat.
Proof.
  split; [cbn; lia|].
  split; [cbn; lra|].
  assert (H0 : (0 < stripCount (wall4 1))%nat) by (cbn; lia).
  assert (H1 : 0 < wallWidth (wall4 1)) by (cbn; lra).
  destruct (C1_layout_tiles_wall (wall4 1) plainTexture H0 H1)
    as (Hlen & Hidx & _).
  split; [exact Hlen | exact Hidx].
Defined.

(** C2, as the program has it.  Strip [i] samples the texture window that
    starts at [i/stripCount] and is [1/stripCount] wide.  In exact arithmetic
    the windows partition [0,1]: the first starts at 0, each one ends where
    the next starts, and the last ends at 1.  In binary64, the program's
    arithmetic, the four-strip offsets are exactly 0, 0.25, 0.5, 0.75 with
    repeat 0.25, and for the scene's 24 strips the first window starts at 0,
    the last ends at 1, and each window ends within [2^-53] of where the next
    starts. *)
Theorem C2_texture_windows_partition (cfg : WallConfig) (tex : THREE.Texture) :
  (0 < stripCount cfg)%nat ->
  let N := stripCount cfg in
  let ls := generate cfg tex in
  (forall i, (i < N)%nat ->
     exists l, nth_error ls i = Some l /\
               textureOffsetU l = INR i / INR N /\
               textureRepeatU l = 1 / INR N) /\
  (exists l, nth_error ls 0 = Some l /\ textureOffsetU l = 0) /\
  (forall i, (i < N - 1)%nat ->
     exists l l', nth_error ls i = Some l /\ nth_error ls (S i) = Some l' /\
                  textureOffsetU l + textureRepeatU l = textureOffsetU l') /\
  (exists l, nth_error ls (N - 1) = Some l /\
             textureOffsetU l + textureRepeatU l = 1) /\
  (forall a,
     map textureOffsetU (generate (wall4 a) tex) = [0; 0.25; 0.5; 0.75] /\
     map textureRepeatU (generate (wall4 a) tex) =
     [0.25; 0.25; 0.25; 0.25]) /\
  (map (Binary64.offsetX 4) (strips 4) = [0; 0.25; 0.5; 0.75]%float /\
   Binary64.repeatX 4 = 0.25%float) /\
  (Binary64.offsetX STRIP_COUNT 0 = 0%float /\
   forallb (fun i =>
              (abs (Binary64.offsetX STRIP_COUNT i
                    + Binary64.repeatX STRIP_COUNT
                    - Binary64.offsetX STRIP_COUNT (S i)) <=? 0x1p-53)%float)
           (strips (STRIP_COUNT - 1)) = true /\
   (Binary64.offsetX STRIP_COUNT (STRIP_COUNT - 1)
    + Binary64.repeatX STRIP_COUNT)%float = 1%float).
Proof.
  intros HN N ls.
  assert (HNR : 0 < INR N) by (apply lt_0_INR; exact HN).
  split.
  { intros i Hi. eexists. split; [apply generate_nth; exact Hi|].
    cbn. split; reflexivity. }
  split.
  { eexists. split; [apply generate_nth; exact HN|].
    cbn. fold N. field. lra. }
  split.
  { intros i Hi. do 2 eexists.
    split; [apply generate_nth; unfold N in Hi; lia|].
    split; [apply generate_nth; unfold N in Hi; lia|].
    cbn -[INR]. fold N. rewrite S_INR. field. lra. }
  split.
  { eexists. split; [apply generate_nth; lia|].
    cbn -[INR]. fold N.
    rewrite minus_INR by (unfold N; lia). cbn. field. lra. }
  split.
  { intros a. split; cbn; repeat f_equal; lra. }
  split; [split; vm_compute; reflexivity|].
  repeat split; vm_compute; reflexivity.
Qed.

Lemma C2_texture_windows_partition_witness :
  (0 < stripCount (wall4 1))%nat /\
  exists l, nth_error (generate (wall4 1) plainTexture) 3 = Some l /\
            textureOffsetU l + textureRepeatU l = 1.
Proof.
  split; [cbn; lia|].
  assert (H0 : (0 < stripCount (wall4 1))%nat) by (cbn; lia).
  destruct (C2_texture_windows_partition (wall4 1) plainTexture H0)
    as (_ & _ & _ & Hlast & _).
  exact Hlast.
Defined.

(** C2 as stated fails in the program's arithmetic.  For the scene's 24
    strips, evaluated in binary64, the window of strip 4 does not end where
    the window of strip 5 starts: [4/24 + 1/24] is 0.20833333333333331 and
    [5/24] is 0.20833333333333334, one unit in the last place apart.  The
    same holds for 7 of the 23 adjacent pairs. *)
Lemma C2_windows_do_not_chain_in_binary64 :
  ((Binary64.offsetX STRIP_COUNT 4 + Binary64.repeatX STRIP_COUNT
    =? Binary64.offsetX STRIP_COUNT 5)%float = false) /\
  (Binary64.offsetX STRIP_COUNT 4 + Binary64.repeatX STRIP_COUNT)%float
  <> Binary64.offsetX STRIP_COUNT 5 /\
  (Binary64.offsetX STRIP_COUNT 4 + Binary64.repeatX STRIP_COUNT)%float
  = 0x1.aaaaaaaaaaaaap-3%float /\
  Binary64.offsetX STRIP_COUNT 5 = 0x1.aaaaaaaaaaaabp-3%float /\
  filter (fun i =>
            negb (Binary64.offsetX STRIP_COUNT i + Binary64.repeatX STRIP_COUNT
                  =? Binary64.offsetX STRIP_COUNT (S i))%float)
         (strips (STRIP_COUNT - 1))
  = [4; 7; 10; 13; 16; 19; 22]%nat.
Proof.
  assert (E : ((Binary64.offsetX STRIP_COUNT 4 + Binary64.repeatX STRIP_COUNT
                =? Binary64.offsetX STRIP_COUNT 5)%float = false))
    by (vm_compute; reflexivity).
  split; [exact E|]. split.
  { intros H. rewrite H in E. vm_compute in E. discriminate. }
  repeat split; vm_compute; reflexivity.
Qed.

(** The scene's own configuration, 24 strips on a wall of width 12, in
    binary64: the strip edges chain bit for bit from -6 to 6; the texture
    windows start at 0, end at 1, and consecutive windows meet within
    [2^-53]. *)
Lemma Binary64_scene_layout :
  ((Binary64.initialX 12 24 0 - Binary64.stripWidth 12 24 / 2)%float
   = (-6)%float /\
   forallb (fun i =>
              (Binary64.initialX 12 24 i + Binary64.stripWidth 12 24 / 2
               =? Binary64.initialX 12 24 (S i)
                  - Binary64.stripWidth 12 24 / 2)%float)
           (strips 23) = true /\
   (Binary64.initialX 12 24 23 + Binary64.stripWidth 12 24 / 2)%float
   = 6%float) /\
  (Binary64.offsetX 24 0 = 0%float /\
   forallb (fun i =>
              (abs (Binary64.offsetX 24 i + Binary64.repeatX 24
                    - Binary64.offsetX 24 (S i)) <=? 0x1p-53)%float)
           (strips 23) = true /\
   (Binary64.offsetX 24 23 + Binary64.repeatX 24)%float = 1%float).
Proof. repeat split; vm_compute; reflexivity. Qed.

(** ** One frame *)

Lemma Rabs_m1 : Rabs (-1) = 1.
Proof. unfold Rabs. destruct Rcase_abs; lra. Qed.

Lemma max_min_clamp v : Rmax 0 (Rmin 1 v) = clamp v 0 1.
Proof.
  unfold clamp, Rmax, Rmin.
  repeat (destruct Rle_dec; try lra); repeat (destruct Rlt_dec; try lra).
Qed.

Lemma dir_even p : dir p = if Nat.even (index p) then 1 else -1.
Proof.
  unfold dir.
  destruct (Nat.even (index p)) eqn:E.
  - apply Nat.even_spec in E. destruct E as [k ->].
    now rewrite Nat.mul_comm, Nat.Div0.mod_mul.
  - destruct (index p mod 2 =? 0)%nat eqn:M; [|reflexivity].
    apply Nat.eqb_eq, Nat.Div0.mod_divides in M. destruct M as [k M].
    rewrite M, Nat.even_mul in E. discriminate.
Qed.

Lemma compression_range st : 0 <= compression st <= 1.
Proof.
  unfold compression, Rmax, Rmin.
  repeat (destruct Rle_dec; try lra).
Qed.

Lemma compression_saturated st :
  compression st = 1 <-> 2 / 3 <= Rabs (THREE.x (pointer st)).
Proof.
  unfold compression, Rmax, Rmin.
  repeat (destruct Rle_dec; try lra).
Qed.

(** The frame callback on a strip whose mesh is attached, component by
    component. *)
Lemma useFrame_attached p st delta rotY posX posZ tiltX meshRotY meshPosX :
  let rotY' := THREE.MathUtils.lerp rotY (angle p st) (10 * delta) in
  let posX' :=
    THREE.MathUtils.lerp posX (initialX p * cos (Rabs rotY')) (8 * delta) in
  useFrame p st delta (attached rotY posX posZ tiltX meshRotY meshPosX) =
  attached rotY' posX'
    (THREE.MathUtils.lerp posZ
       (sin (Rabs rotY') * (stripWidth p * 0.25) * dir p) (8 * delta))
    (THREE.MathUtils.lerp tiltX (tilt st) (5 * delta))
    rotY' posX'.
Proof. reflexivity. Qed.

(** C3.  The rotation cell is driven toward
    [dir * (maxFoldAngle * compression + wave * 0.2)], where [dir] is +1 on
    even and -1 on odd indices, [wave = sin (elapsedTime * 0.5 + index * 0.1)
    * 0.1] and [compression = clamp (|pointerX| * 1.5) 0 1].  The compression
    is 1 exactly when [|pointerX| >= 2/3]; at [pointerX = 1] or [-1] it is 1,
    and then a vanishing wave leaves the angle [dir * maxFoldAngle]. *)
Theorem C3_target_rotation (p : FoldStripProps) (st : RootState) :
  let pointerX := THREE.x (pointer st) in
  let d := if Nat.even (index p) then 1 else -1 in
  let w := sin (clock_elapsedTime st * 0.5 + INR (index p) * 0.1) * 0.1 in
  let c := clamp (Rabs pointerX * 1.5) 0 1 in
  (forall delta rotY posX posZ tiltX meshRotY meshPosX,
     currentRotationY
       (useFrame p st delta (attached rotY posX posZ tiltX meshRotY meshPosX))
     = THREE.MathUtils.lerp rotY
         (d * (maxFoldAngle (globalConfig p) * c + w * 0.2)) (10 * delta)) /\
  angle p st = d * (maxFoldAngle (globalConfig p) * c + w * 0.2) /\
  dir p = d /\ wave p st = w /\ compression st = c /\
  (c = 1 <-> 2 / 3 <= Rabs pointerX) /\
  (pointerX = 1 \/ pointerX = -1 ->
   c = 1 /\
   (w = 0 ->
    angle p st = d * maxFoldAngle (globalConfig p) /\
    Rabs (angle p st) = Rabs (maxFoldAngle (globalConfig p)))).
Proof.
  intros pointerX d w c.
  assert (Hd : dir p = d) by apply dir_even.
  assert (Hc : compression st = c) by apply max_min_clamp.
  assert (Hw : wave p st = w) by reflexivity.
  assert (Ha : angle p st = d * (maxFoldAngle (globalConfig p) * c + w * 0.2)).
  { unfold angle. now rewrite Hd, Hc, Hw. }
  split.
  { intros. rewrite useFrame_attached. cbn. now rewrite Ha. }
  repeat (split; [assumption|]).
  split.
  { rewrite <- Hc. apply compression_saturated. }
  intros Hp.
  assert (Hc1 : c = 1).
  { rewrite <- Hc. apply compression_saturated. fold pointerX.
    destruct Hp as [-> | ->]; [rewrite Rabs_R1 | rewrite Rabs_m1]; lra. }
  split; [exact Hc1|].
  intros Hw0. rewrite Ha, Hc1, Hw0.
  split; [f_equal; lra|].
  replace (d * (maxFoldAngle (globalConfig p) * 1 + 0 * 0.2))
    with (d * maxFoldAngle (globalConfig p)) by lra.
  rewrite Rabs_mult.
  replace (Rabs d) with 1; [lra|].
  unfold d. destruct (Nat.even (index p));
    [now rewrite Rabs_R1 | now rewrite Rabs_m1].
Qed.

Lemma C3_target_rotation_witness :
  (THREE.x (pointer (rootState 1 0 0)) = 1 \/
   THREE.x (pointer (rootState 1 0 0)) = -1) /\
  sin (clock_elapsedTime (rootState 1 0 0) * 0.5 + INR (index (strip 0)) * 0.1)
  * 0.1 = 0 /\
  angle (strip 0) (rootState 1 0 0) = 1.
Proof.
  assert (Hp : THREE.x (pointer (rootState 1 0 0)) = 1 \/
               THREE.x (pointer (rootState 1 0 0)) = -1)
    by (left; reflexivity).
  assert (Hw : sin (clock_elapsedTime (rootState 1 0 0) * 0.5
                    + INR (index (strip 0)) * 0.1) * 0.1 = 0).
  { cbn. replace (0 * 0.5 + 0 * 0.1) with 0 by lra. rewrite sin_0. lra. }
  split; [exact Hp|]. split; [exact Hw|].
  destruct (C3_target_rotation (strip 0) (rootState 1 0 0))
    as (_ & _ & _ & _ & _ & _ & H).
  destruct (H Hp) as (_ & H').
  destruct (H' Hw) as (-> & _). cbn. lra.
Defined.

Lemma Rmin_1_small v : v <= 1 -> Rmin 1 v = v.
Proof. intros H. unfold Rmin. destruct Rle_dec; lra. Qed.

(** Interpolating with the factor itself or with the factor capped at 1
    gives the same value only if the factor is at most 1 or there is nothing
    to interpolate. *)
Lemma lerp_capped_iff x a t :
  THREE.MathUtils.lerp x a t = THREE.MathUtils.lerp x a (Rmin 1 t) <->
  t <= 1 \/ x = a.
Proof.
  unfold THREE.MathUtils.lerp, Rmin. destruct (Rle_dec 1 t) as [H|H].
  - split.
    + intros E. assert (E' : (1 - t) * (x - a) = 0) by lra.
      apply Rmult_integral in E'. destruct E'; [left|right]; lra.
    + intros [Ht| ->]; [replace t with 1 by lra; reflexivity | ring].
  - split; [intros _; left; lra | reflexivity].
Qed.

(** Up to a tenth of a second per frame, the callback is the specification's
    update. *)
Lemma useFrame_refines_specUpdate p st delta rotY posX posZ tiltX mry mpx :
  10 * delta <= 1 ->
  smoothingState
    (useFrame p st delta (attached rotY posX posZ tiltX mry mpx)) =
  specUpdate (stripWidth p) (maxFoldAngle (globalConfig p)) (layout p)
    (mkStripSmoothingState rotY posX posZ tiltX) (inputSample st delta).
Proof.
  intros H10. rewrite useFrame_attached.
  unfold specUpdate, smoothingState. cbn.
  rewrite !Rmin_1_small by lra.
  rewrite <- dir_even, <- max_min_clamp.
  reflexivity.
Qed.

(** C4, as the program has it.  A frame moves every smoothed component by
    linear interpolation toward its target with the factor [k * frameDelta]
    itself, [k] being 10 for the rotation, 8 for both positions and 5 for
    the tilt; nothing caps the factor at 1.  The result is the one the factor
    [min (1, k * frameDelta)] would give exactly when [k * frameDelta <= 1]
    or the component is already at its target. *)
Theorem C4_smoothing_factors
  (p : FoldStripProps) (st : RootState) (delta : R)
  (rotY posX posZ tiltX meshRotY meshPosX : R) :
  let r := attached rotY posX posZ tiltX meshRotY meshPosX in
  let r' := useFrame p st delta r in
  let targetAngle := angle p st in
  let newX := initialX p * cos (Rabs (currentRotationY r')) in
  let zOffset :=
    sin (Rabs (currentRotationY r')) * (stripWidth p * 0.25) * dir p in
  let targetTilt := THREE.y (pointer st) * 0.2 in
  (currentRotationY r' = THREE.MathUtils.lerp rotY targetAngle (10 * delta) /\
   currentPositionX r' = THREE.MathUtils.lerp posX newX (8 * delta) /\
   currentPositionZ r' = THREE.MathUtils.lerp posZ zOffset (8 * delta) /\
   currentTiltX r' = THREE.MathUtils.lerp tiltX targetTilt (5 * delta)) /\
  (currentRotationY r' =
   THREE.MathUtils.lerp rotY targetAngle (Rmin 1 (10 * delta)) <->
   10 * delta <= 1 \/ rotY = targetAngle) /\
  (currentPositionX r' =
   THREE.MathUtils.lerp posX newX (Rmin 1 (8 * delta)) <->
   8 * delta <= 1 \/ posX = newX) /\
  (currentPositionZ r' =
   THREE.MathUtils.lerp posZ zOffset (Rmin 1 (8 * delta)) <->
   8 * delta <= 1 \/ posZ = zOffset) /\
  (currentTiltX r' =
   THREE.MathUtils.lerp tiltX targetTilt (Rmin 1 (5 * delta)) <->
   5 * delta <= 1 \/ tiltX = targetTilt).
Proof.
  intros r r' targetAngle newX zOffset targetTilt.
  subst r r' newX zOffset. rewrite useFrame_attached. cbn.
  split; [repeat split|].
  repeat split; try (intros H; apply lerp_capped_iff; exact H);
    apply lerp_capped_iff.
Qed.

Lemma C4_smoothing_factors_witness :
  10 * (1 / 60) <= 1 /\
  currentRotationY (useFrame (strip 0) (rootState 1 1 0) (1 / 60)
                             (mounted (strip 0))) =
  THREE.MathUtils.lerp 0 (angle (strip 0) (rootState 1 1 0))
                       (Rmin 1 (10 * (1 / 60))).
Proof.
  assert (H10 : 10 * (1 / 60) <= 1) by lra.
  split; [exact H10|].
  destruct (C4_smoothing_factors (strip 0) (rootState 1 1 0) (1 / 60)
              0 0 0 0 0 (initialX (strip 0))) as (_ & H & _).
  exact (proj2 H (or_introl H10)).
Defined.

(** C4 as stated fails: at a frame delta of 0.2 the rotation factor is 2,
    and the rotation of strip 0, starting flat with the pointer at the right
    edge, goes to 2 where the capped factor would stop it at 1. *)
Lemma C4_factor_not_clamped :
  0 < 0.2 /\
  currentRotationY (useFrame (strip 0) (rootState 1 0 0) 0.2
                             (mounted (strip 0))) = 2 /\
  THREE.MathUtils.lerp (currentRotationY (mounted (strip 0)))
                       (angle (strip 0) (rootState 1 0 0))
                       (Rmin 1 (10 * 0.2)) = 1 /\
  currentRotationY (useFrame (strip 0) (rootState 1 0 0) 0.2
                             (mounted (strip 0))) <>
  THREE.MathUtils.lerp (currentRotationY (mounted (strip 0)))
                       (angle (strip 0) (rootState 1 0 0))
                       (Rmin 1 (10 * 0.2)).
Proof.
  assert (Ha : angle (strip 0) (rootState 1 0 0) = 1).
  { unfold angle, wave, compression, dir, time. cbn.
    replace (0 * 0.5 + 0 * 0.1) with 0 by lra.
    rewrite sin_0, Rabs_R1.
    unfold Rmax, Rmin. repeat (destruct Rle_dec; try lra). }
  assert (H1 : currentRotationY (useFrame (strip 0) (rootState 1 0 0) 0.2
                                          (mounted (strip 0))) = 2).
  { cbn. rewrite Ha. unfold THREE.MathUtils.lerp. lra. }
  assert (H2 : THREE.MathUtils.lerp (currentRotationY (mounted (strip 0)))
                 (angle (strip 0) (rootState 1 0 0))
                 (Rmin 1 (10 * 0.2)) = 1).
  { rewrite Ha. cbn. unfold THREE.MathUtils.lerp, Rmin.
    destruct Rle_dec; lra. }
  split; [lra|]. split; [exact H1|]. split; [exact H2|].
  rewrite H1, H2. lra.
Qed.

(** C5.  Within one frame the rotation is smoothed first, and both position
    targets are computed from the rotation that frame has just produced:
    [flatCenterX * cos |currentRotationY|] for X and
    [sin |currentRotationY| * (stripWidth * 0.25) * dir] for Z. *)
Theorem C5_position_targets_use_new_rotation
  (p : FoldStripProps) (st : RootState) (delta : R)
  (rotY posX posZ tiltX meshRotY meshPosX : R) :
  let r' :=
    useFrame p st delta (attached rotY posX posZ tiltX meshRotY meshPosX) in
  let rotY' := currentRotationY r' in
  let targetX := flatCenterX (layout p) * cos (Rabs rotY') in
  let targetZ := sin (Rabs rotY') * (stripWidth p * 0.25) * dir p in
  rotY' = THREE.MathUtils.lerp rotY (angle p st) (10 * delta) /\
  currentPositionX r' = THREE.MathUtils.lerp posX targetX (8 * delta) /\
  currentPositionZ r' = THREE.MathUtils.lerp posZ targetZ (8 * delta).
Proof.
  intros r' rotY' targetX targetZ.
  subst targetX targetZ rotY' r'. rewrite useFrame_attached.
  repeat split.
Qed.

(** C10.  Two root states that differ only in the pointer's Y coordinate
    give, from the same cells, the same rotation, X position and Z position;
    only the tilt can differ. *)
Theorem C10_pointerY_only_reaches_tilt
  (p : FoldStripProps) (elapsed px py1 py2 vw delta : R) (r : Refs) :
  let r1 :=
    useFrame p (mkRootState elapsed (THREE.mkVector2 px py1) vw) delta r in
  let r2 :=
    useFrame p (mkRootState elapsed (THREE.mkVector2 px py2) vw) delta r in
  currentRotationY r1 = currentRotationY r2 /\
  currentPositionX r1 = currentPositionX r2 /\
  currentPositionZ r1 = currentPositionZ r2 /\
  option_map THREE.rotation_y (meshRef r1) =
  option_map THREE.rotation_y (meshRef r2) /\
  option_map THREE.position_x (meshRef r1) =
  option_map THREE.position_x (meshRef r2).
Proof.
  intros r1 r2. subst r1 r2. unfold useFrame.
  destruct (meshRef r); repeat split.
Qed.

(** ** Relaxation toward a target *)

Section Relaxation.

Import THREE.MathUtils.

Lemma lerp_error x a t : lerp x a t - a = (1 - t) * (x - a).
Proof. unfold lerp. ring. Qed.

Lemma lerp_fixed a t : lerp a a t = a.
Proof. unfold lerp. ring. Qed.

Lemma contraction_rate t : 0 < t < 2 -> Rabs (1 - t) < 1.
Proof. intros H. unfold Rabs. destruct Rcase_abs; lra. Qed.

(** A cell that is interpolated toward the same target [a] with the same
    factor [t] on every frame. *)
Section FixedTarget.

Variable u : nat -> R.
Variables a t : R.
Hypothesis u_step : forall n, u (S n) = lerp (u n) a t.

Lemma fixed_target_error n : u n - a = (1 - t) ^ n * (u 0%nat - a).
Proof.
  induction n as [|n IH].
  - simpl. ring.
  - rewrite u_step, lerp_error, IH. simpl. ring.
Qed.

Lemma fixed_target_step_error n :
  Rabs (u (S n) - a) = Rabs (1 - t) * Rabs (u n - a).
Proof. now rewrite u_step, lerp_error, Rabs_mult. Qed.

Lemma fixed_target_monotone n :
  Rabs (1 - t) <= 1 -> Rabs (u (S n) - a) <= Rabs (u n - a).
Proof.
  intros H. rewrite fixed_target_step_error.
  pose proof (Rabs_pos (u n - a)). nra.
Qed.

Lemma fixed_target_cv : Rabs (1 - t) < 1 -> Un_cv u a.
Proof.
  intros Ht eps Heps.
  set (E := Rabs (u 0%nat - a)).
  assert (HE : 0 <= E) by apply Rabs_pos.
  destruct (pow_lt_1_zero (1 - t) Ht (eps / (E + 1))) as [N HN].
  { apply Rdiv_lt_0_compat; lra. }
  exists N. intros n Hn. unfold Rdist.
  rewrite fixed_target_error, Rabs_mult. fold E.
  specialize (HN n Hn).
  assert (Hpos : 0 <= Rabs ((1 - t) ^ n)) by apply Rabs_pos.
  apply Rle_lt_trans with (Rabs ((1 - t) ^ n) * (E + 1)); [nra|].
  apply Rlt_le_trans with (eps / (E + 1) * (E + 1)).
  - apply Rmult_lt_compat_r; lra.
  - right. field. lra.
Qed.

End FixedTarget.

(** A cell that is interpolated, with the same factor [t] on every frame,
    toward a target that itself converges. *)
Section MovingTarget.

Variables u T : nat -> R.
Variables L t : R.
Hypothesis u_step : forall n, u (S n) = lerp (u n) (T (S n)) t.
Hypothesis T_cv : Un_cv T L.
Hypothesis t_rate : Rabs (1 - t) < 1.

Lemma moving_target_step_error n :
  Rabs (u (S n) - T (S n)) = Rabs (1 - t) * Rabs (u n - T (S n)).
Proof. now rewrite u_step, lerp_error, Rabs_mult. Qed.

Lemma moving_target_cv : Un_cv u L.
Proof.
  intros eps Heps.
  set (q := Rabs (1 - t)).
  assert (Hq0 : 0 <= q) by apply Rabs_pos.
  assert (Hq1 : q < 1) by exact t_rate.
  assert (Ht2 : Rabs t < 2).
  { revert t_rate. unfold Rabs.
    destruct (Rcase_abs (1 - t)), (Rcase_abs t); lra. }
  destruct (T_cv ((1 - q) * eps / 4)) as [N1 H1]; [nra|].
  assert (step : forall n, (n >= N1)%nat ->
            Rabs (u (S n) - L) <= q * Rabs (u n - L) + (1 - q) * eps / 2).
  { intros n Hn.
    replace (u (S n) - L)
      with ((1 - t) * (u n - L) + t * (T (S n) - L))
      by (rewrite u_step; unfold lerp; ring).
    eapply Rle_trans; [apply Rabs_triang|].
    rewrite !Rabs_mult. fold q.
    assert (HT : Rabs (T (S n) - L) < (1 - q) * eps / 4).
    { apply (H1 (S n)). lia. }
    pose proof (Rabs_pos (T (S n) - L)).
    pose proof (Rabs_pos t).
    nra. }
  set (E := Rabs (u N1 - L)).
  assert (HE : 0 <= E) by apply Rabs_pos.
  assert (bound : forall k,
            Rabs (u (N1 + k)%nat - L) <= q ^ k * E + eps / 2).
  { induction k as [|k IH].
    - rewrite Nat.add_0_r. simpl. fold E. lra.
    - replace (N1 + S k)%nat with (S (N1 + k)) by lia.
      eapply Rle_trans; [apply step; lia|].
      simpl. nra. }
  assert (Hqq : Rabs q < 1) by (rewrite Rabs_pos_eq; assumption).
  destruct (pow_lt_1_zero q Hqq (eps / (2 * (E + 1)))) as [N2 H2].
  { apply Rdiv_lt_0_compat; lra. }
  exists (N1 + N2)%nat. intros n Hn. unfold Rdist.
  replace n with (N1 + (n - N1))%nat by lia.
  eapply Rle_lt_trans; [apply bound|].
  assert (Hk : (n - N1 >= N2)%nat) by lia.
  specialize (H2 _ Hk).
  assert (Hp : 0 <= q ^ (n - N1)) by (apply pow_le; exact Hq0).
  rewrite Rabs_pos_eq in H2 by exact Hp.
  assert (q ^ (n - N1) * E < eps / 2); [|lra].
  apply Rle_lt_trans with (q ^ (n - N1) * (E + 1)); [nra|].
  apply Rlt_le_trans with (eps / (2 * (E + 1)) * (E + 1)).
  - apply Rmult_lt_compat_r; lra.
  - right. field. lra.
Qed.

End MovingTarget.

End Relaxation.

(** ** Repeated frames *)

Lemma useFrame_step p st delta r :
  meshRef r <> None ->
  let r' := useFrame p st delta r in
  currentRotationY r' =
    THREE.MathUtils.lerp (currentRotationY r) (angle p st) (10 * delta) /\
  currentPositionX r' =
    THREE.MathUtils.lerp (currentPositionX r)
      (initialX p * cos (Rabs (currentRotationY r'))) (8 * delta) /\
  currentPositionZ r' =
    THREE.MathUtils.lerp (currentPositionZ r)
      (sin (Rabs (currentRotationY r')) * (stripWidth p * 0.25) * dir p)
      (8 * delta) /\
  currentTiltX r' =
    THREE.MathUtils.lerp (currentTiltX r) (tilt st) (5 * delta) /\
  meshRef r' <> None.
Proof.
  intros Hm r'. subst r'. unfold useFrame.
  unfold currentPositionZ, currentTiltX, currentRotationY, currentPositionX.
  destruct (meshRef r) as [m|]; [|congruence].
  cbn. repeat split. discriminate.
Qed.

Lemma frames_S p st delta n r :
  frames p st delta (S n) r = useFrame p st delta (frames p st delta n r).
Proof. reflexivity. Qed.

Lemma frames_attached p st delta r :
  meshRef r <> None -> forall n, meshRef (frames p st delta n r) <> None.
Proof.
  intros Hm n. induction n as [|n IH]; [exact Hm|].
  rewrite frames_S. now apply useFrame_step.
Qed.

Lemma mounted_meshRef p : meshRef (mounted p) <> None.
Proof. discriminate. Qed.

Lemma Un_cv_const c : Un_cv (fun _ => c) c.
Proof.
  intros eps Heps. exists 0%nat. intros n _.
  unfold Rdist. rewrite Rminus_diag, Rabs_R0. exact Heps.
Qed.

Section ConstantInput.

Variable p : FoldStripProps.
Variable st : RootState.
Variable delta : R.
Variable r0 : Refs.
Hypothesis r0_attached : meshRef r0 <> None.

Let r (n : nat) : Refs := frames p st delta n r0.

Lemma rotation_step n :
  currentRotationY (r (S n)) =
  THREE.MathUtils.lerp (currentRotationY (r n)) (angle p st) (10 * delta).
Proof.
  unfold r. rewrite frames_S.
  apply useFrame_step, frames_attached, r0_attached.
Qed.

Lemma tilt_step n :
  currentTiltX (r (S n)) =
  THREE.MathUtils.lerp (currentTiltX (r n)) (tilt st) (5 * delta).
Proof.
  unfold r. rewrite frames_S.
  apply useFrame_step, frames_attached, r0_attached.
Qed.

Lemma positionX_step n :
  currentPositionX (r (S n)) =
  THREE.MathUtils.lerp (currentPositionX (r n))
    (initialX p * cos (Rabs (currentRotationY (r (S n))))) (8 * delta).
Proof.
  unfold r. rewrite frames_S.
  apply useFrame_step, frames_attached, r0_attached.
Qed.

Lemma positionZ_step n :
  currentPositionZ (r (S n)) =
  THREE.MathUtils.lerp (currentPositionZ (r n))
    (sin (Rabs (currentRotationY (r (S n)))) * (stripWidth p * 0.25) * dir p)
    (8 * delta).
Proof.
  unfold r. rewrite frames_S.
  apply useFrame_step, frames_attached, r0_attached.
Qed.

Hypothesis delta_range : 0 < delta < 0.2.

Lemma rotation_cv :
  Un_cv (fun n => currentRotationY (r n)) (angle p st).
Proof.
  apply fixed_target_cv with (t := 10 * delta).
  - exact rotation_step.
  - apply contraction_rate. lra.
Qed.

Lemma tilt_cv : Un_cv (fun n => currentTiltX (r n)) (tilt st).
Proof.
  apply fixed_target_cv with (t := 5 * delta).
  - exact tilt_step.
  - apply contraction_rate. lra.
Qed.

Lemma positionX_cv :
  Un_cv (fun n => currentPositionX (r n))
        (initialX p * cos (Rabs (angle p st))).
Proof.
  apply moving_target_cv
    with (T := fun n => initialX p * cos (Rabs (currentRotationY (r n))))
         (t := 8 * delta).
  - exact positionX_step.
  - apply CV_mult with (An := fun _ => initialX p); [apply Un_cv_const|].
    apply continuity_seq
      with (f := cos) (Un := fun n => Rabs (currentRotationY (r n))).
    + apply continuity_cos.
    + apply cv_cvabs, rotation_cv.
  - apply contraction_rate. lra.
Qed.

Lemma positionZ_cv :
  Un_cv (fun n => currentPositionZ (r n))
        (sin (Rabs (angle p st)) * (stripWidth p * 0.25) * dir p).
Proof.
  apply moving_target_cv
    with (T := fun n => sin (Rabs (currentRotationY (r n)))
                        * (stripWidth p * 0.25) * dir p)
         (t := 8 * delta).
  - exact positionZ_step.
  - apply CV_mult with (Bn := fun _ => dir p); [|apply Un_cv_const].
    apply CV_mult with (Bn := fun _ => stripWidth p * 0.25);
      [|apply Un_cv_const].
    apply continuity_seq
      with (f := sin) (Un := fun n => Rabs (currentRotationY (r n))).
    + apply continuity_sin.
    + apply cv_cvabs, rotation_cv.
  - apply contraction_rate. lra.
Qed.

Lemma settles_to_rest : settlesTo p st delta r0 (restState p st).
Proof.
  repeat split; cbn.
  - exact rotation_cv.
  - exact positionX_cv.
  - exact positionZ_cv.
  - exact tilt_cv.
Qed.

End ConstantInput.

(** The rest state does not move, whatever the frame delta. *)
Lemma restState_fixed p st delta meshRotY meshPosX :
  smoothingState
    (useFrame p st delta
       (attached (rotationY (restState p st)) (positionX (restState p st))
                 (positionZ (restState p st)) (tiltX (restState p st))
                 meshRotY meshPosX)) =
  restState p st.
Proof.
  rewrite useFrame_attached. unfold smoothingState, restState. cbn.
  rewrite !lerp_fixed. reflexivity.
Qed.

(** C7, as the program has it.  With the root state held constant and a
    fixed frame delta strictly between 0 and 0.2, the rotation error and the
    tilt error shrink geometrically (by [1 - 10 * delta] and [1 - 5 * delta]
    per frame) and never grow in absolute value; each frame brings both
    positions closer, by [|1 - 8 * delta|], to the targets which that frame's
    rotation gives; and all four components come within any tolerance of
    their rest values after finitely many frames. *)
Theorem C7_geometric_relaxation
  (p : FoldStripProps) (st : RootState) (delta : R) (r0 : Refs) :
  meshRef r0 <> None ->
  0 < delta < 0.2 ->
  let r n := frames p st delta n r0 in
  let newX n := initialX p * cos (Rabs (currentRotationY (r n))) in
  let zOffset n :=
    sin (Rabs (currentRotationY (r n))) * (stripWidth p * 0.25) * dir p in
  (Rabs (1 - 10 * delta) < 1 /\ Rabs (1 - 8 * delta) < 1 /\
   Rabs (1 - 5 * delta) < 1) /\
  (forall n,
     currentRotationY (r n) - angle p st =
     (1 - 10 * delta) ^ n * (currentRotationY r0 - angle p st) /\
     Rabs (currentRotationY (r (S n)) - angle p st) <=
     Rabs (currentRotationY (r n) - angle p st)) /\
  (forall n,
     currentTiltX (r n) - tilt st =
     (1 - 5 * delta) ^ n * (currentTiltX r0 - tilt st) /\
     Rabs (currentTiltX (r (S n)) - tilt st) <=
     Rabs (currentTiltX (r n) - tilt st)) /\
  (forall n,
     Rabs (currentPositionX (r (S n)) - newX (S n)) =
     Rabs (1 - 8 * delta) * Rabs (currentPositionX (r n) - newX (S n)) /\
     Rabs (currentPositionZ (r (S n)) - zOffset (S n)) =
     Rabs (1 - 8 * delta) * Rabs (currentPositionZ (r n) - zOffset (S n))) /\
  settlesTo p st delta r0 (restState p st).
Proof.
  intros Hm Hd r newX zOffset.
  assert (H10 : Rabs (1 - 10 * delta) < 1) by (apply contraction_rate; lra).
  assert (H8 : Rabs (1 - 8 * delta) < 1) by (apply contraction_rate; lra).
  assert (H5 : Rabs (1 - 5 * delta) < 1) by (apply contraction_rate; lra).
  split; [auto|].
  split.
  { intros n. split.
    - apply (fixed_target_error (fun n => currentRotationY (r n))
               (angle p st) (10 * delta) (rotation_step p st delta r0 Hm)).
    - apply (fixed_target_monotone (fun n => currentRotationY (r n))
               (angle p st) (10 * delta) (rotation_step p st delta r0 Hm)).
      lra. }
  split.
  { intros n. split.
    - apply (fixed_target_error (fun n => currentTiltX (r n))
               (tilt st) (5 * delta) (tilt_step p st delta r0 Hm)).
    - apply (fixed_target_monotone (fun n => currentTiltX (r n))
               (tilt st) (5 * delta) (tilt_step p st delta r0 Hm)).
      lra. }
  split.
  { intros n. split.
    - apply (moving_target_step_error (fun n => currentPositionX (r n))
               newX (8 * delta) (positionX_step p st delta r0 Hm)).
    - apply (moving_target_step_error (fun n => currentPositionZ (r n))
               zOffset (8 * delta) (positionZ_step p st delta r0 Hm)). }
  apply settles_to_rest; assumption.
Qed.

Lemma C7_geometric_relaxation_witness :
  meshRef (mounted (strip 1)) <> None /\ 0 < 1 / 60 < 0.2 /\
  settlesTo (strip 1) (rootState 1 1 0) (1 / 60) (mounted (strip 1))
            (restState (strip 1) (rootState 1 1 0)).
Proof.
  assert (Hd : 0 < 1 / 60 < 0.2) by lra.
  split; [apply mounted_meshRef|]. split; [exact Hd|].
  apply (C7_geometric_relaxation (strip 1) (rootState 1 1 0) (1 / 60)
           (mounted (strip 1)) (mounted_meshRef (strip 1)) Hd).
Defined.

Lemma angle_strip0_right_edge : angle (strip 0) (rootState 1 0 0) = 1.
Proof.
  unfold angle, wave, compression, dir, time. cbn.
  replace (0 * 0.5 + 0 * 0.1) with 0 by lra.
  rewrite sin_0, Rabs_R1.
  unfold Rmax, Rmin. repeat (destruct Rle_dec; try lra).
Qed.

(** C7 as stated fails for a frame delta of 0.3: the rotation factor is 3,
    so the rotation error of strip 0 (pointer at the right edge, target
    angle 1) doubles on every frame. *)
Lemma C7_error_grows_at_large_delta :
  0 < 0.3 /\
  (forall n,
     Rabs (currentRotationY
             (frames (strip 0) (rootState 1 0 0) 0.3 n (mounted (strip 0)))
           - angle (strip 0) (rootState 1 0 0)) = 2 ^ n) /\
  Rabs (currentRotationY
          (frames (strip 0) (rootState 1 0 0) 0.3 1 (mounted (strip 0)))
        - angle (strip 0) (rootState 1 0 0)) >
  Rabs (currentRotationY
          (frames (strip 0) (rootState 1 0 0) 0.3 0 (mounted (strip 0)))
        - angle (strip 0) (rootState 1 0 0)) /\
  ~ (exists N, forall n, (n >= N)%nat ->
       Rabs (currentRotationY
               (frames (strip 0) (rootState 1 0 0) 0.3 n (mounted (strip 0)))
             - angle (strip 0) (rootState 1 0 0)) < 1).
Proof.
  assert (E : forall n,
     Rabs (currentRotationY
             (frames (strip 0) (rootState 1 0 0) 0.3 n (mounted (strip 0)))
           - angle (strip 0) (rootState 1 0 0)) = 2 ^ n).
  { intros n.
    rewrite (fixed_target_error
               (fun n => currentRotationY
                  (frames (strip 0) (rootState 1 0 0) 0.3 n
                          (mounted (strip 0))))
               (angle (strip 0) (rootState 1 0 0)) (10 * 0.3)
               (rotation_step (strip 0) (rootState 1 0 0) 0.3
                              (mounted (strip 0))
                              (mounted_meshRef (strip 0)))).
    rewrite angle_strip0_right_edge.
    change (currentRotationY
              (frames (strip 0) (rootState 1 0 0) 0.3 0 (mounted (strip 0))))
      with 0.
    replace (1 - 10 * 0.3) with (-2) by lra.
    rewrite Rabs_mult, <- RPow_abs.
    replace (Rabs (-2)) with 2 by (unfold Rabs; destruct Rcase_abs; lra).
    replace (Rabs (0 - 1)) with 1 by (unfold Rabs; destruct Rcase_abs; lra).
    ring. }
  split; [lra|]. split; [exact E|]. split.
  - rewrite !E. simpl. lra.
  - intros [N HN]. specialize (HN N (Nat.le_refl N)). rewrite E in HN.
    assert (1 <= 2 ^ N) by (apply pow_R1_Rle; lra). lra.
Qed.

(** ** The wave at rest, and the direction of the fold *)

Lemma PI_bounds : 3.1 < PI < 3.2.
Proof.
  pose proof (PI_2_3_7_ineq 1) as H.
  unfold sum_f_R0, tg_alt, PI_2_3_7_tg, Ratan_seq in H. simpl in H.
  lra.
Qed.

Lemma wave_amplitude p st : - 0.02 <= wave p st * 0.2 <= 0.02.
Proof.
  unfold wave.
  pose proof (SIN_bound (time st * 0.5 + INR (index p) * 0.1)) as [? ?].
  lra.
Qed.

Lemma idle_compression vw :
  compression (mkRootState 0 (THREE.mkVector2 0 0) vw) = 0.
Proof.
  unfold compression. cbn. rewrite Rabs_R0.
  unfold Rmax, Rmin. repeat (destruct Rle_dec; try lra).
Qed.

Lemma idle_wave p vw :
  wave p (mkRootState 0 (THREE.mkVector2 0 0) vw) =
  sin (INR (index p) * 0.1) * 0.1.
Proof.
  unfold wave, time. cbn. f_equal. f_equal. lra.
Qed.

Lemma idle_wave_positive p vw :
  (1 <= index p <= 31)%nat ->
  0 < wave p (mkRootState 0 (THREE.mkVector2 0 0) vw).
Proof.
  intros [Hlo Hhi]. rewrite idle_wave.
  apply le_INR in Hlo, Hhi.
  change (INR 1) with 1 in Hlo.
  replace (INR 31) with 31 in Hhi by (simpl; lra).
  pose proof PI_bounds.
  assert (0 < sin (INR (index p) * 0.1)); [|lra].
  apply sin_gt_0; lra.
Qed.

Lemma idle_angle p vw :
  angle p (mkRootState 0 (THREE.mkVector2 0 0) vw) =
  dir p * (sin (INR (index p) * 0.1) * 0.02).
Proof.
  unfold angle. rewrite idle_compression, idle_wave. f_equal. lra.
Qed.

(** C6, as the program has it.  With the pointer at the centre and the clock
    at 0 the compression is 0, but the wave of strip [index] is
    [sin (index * 0.1) * 0.1]: it vanishes for strip 0 and is positive for
    strips 1 to 31.  Under repeated frames with a fixed delta between 0 and
    0.2 a strip settles to the rotation [dir * sin (index * 0.1) * 0.02], to
    the positions that rotation gives and to tilt 0; strip 0 settles to
    rotation 0, X position [flatCenterX], Z position 0 and tilt 0. *)
Theorem C6_idle_rest (p : FoldStripProps) (vw delta : R) (r0 : Refs) :
  meshRef r0 <> None ->
  0 < delta < 0.2 ->
  let st := mkRootState 0 (THREE.mkVector2 0 0) vw in
  let a := dir p * (sin (INR (index p) * 0.1) * 0.02) in
  compression st = 0 /\
  wave p st = sin (INR (index p) * 0.1) * 0.1 /\
  (index p = 0%nat -> wave p st = 0) /\
  ((1 <= index p <= 31)%nat -> 0 < wave p st) /\
  settlesTo p st delta r0
    (mkStripSmoothingState a
       (flatCenterX (layout p) * cos (Rabs a))
       (sin (Rabs a) * (stripWidth p * 0.25) * dir p) 0) /\
  (index p = 0%nat ->
   settlesTo p st delta r0
     (mkStripSmoothingState 0 (flatCenterX (layout p)) 0 0)).
Proof.
  intros Hm Hd st a.
  assert (Hrest : restState p st =
                  mkStripSmoothingState a
                    (flatCenterX (layout p) * cos (Rabs a))
                    (sin (Rabs a) * (stripWidth p * 0.25) * dir p) 0).
  { unfold restState. unfold st at 1 2 3. rewrite !idle_angle. fold a.
    unfold tilt, st. cbn. f_equal. lra. }
  assert (Hsettle : settlesTo p st delta r0
                      (mkStripSmoothingState a
                         (flatCenterX (layout p) * cos (Rabs a))
                         (sin (Rabs a) * (stripWidth p * 0.25) * dir p) 0)).
  { rewrite <- Hrest. apply settles_to_rest; assumption. }
  split; [apply idle_compression|].
  split; [apply idle_wave|].
  split.
  { intros H0. unfold st. rewrite idle_wave, H0. cbn.
    rewrite Rmult_0_l, sin_0. lra. }
  split; [apply idle_wave_positive|].
  split; [exact Hsettle|].
  intros H0.
  assert (Ha : a = 0).
  { unfold a. rewrite H0. cbn. rewrite Rmult_0_l, sin_0. lra. }
  rewrite Ha, Rabs_R0, cos_0, sin_0 in Hsettle.
  replace (flatCenterX (layout p) * 1) with (flatCenterX (layout p))
    in Hsettle by lra.
  replace (0 * (stripWidth p * 0.25) * dir p) with 0 in Hsettle by lra.
  exact Hsettle.
Qed.

Lemma C6_idle_rest_witness :
  meshRef (mounted (strip 0)) <> None /\ 0 < 1 / 60 < 0.2 /\
  index (strip 0) = 0%nat /\
  settlesTo (strip 0) (mkRootState 0 (THREE.mkVector2 0 0) 16) (1 / 60)
            (mounted (strip 0))
            (mkStripSmoothingState 0 (flatCenterX (layout (strip 0))) 0 0).
Proof.
  assert (Hd : 0 < 1 / 60 < 0.2) by lra.
  assert (Hi : index (strip 0) = 0%nat) by reflexivity.
  split; [apply mounted_meshRef|]. split; [exact Hd|]. split; [exact Hi|].
  destruct (C6_idle_rest (strip 0) 16 (1 / 60) (mounted (strip 0))
              (mounted_meshRef (strip 0)) Hd) as (_ & _ & _ & _ & _ & H).
  exact (H Hi).
Defined.

(** C6 as stated fails on strip 1: with the pointer at the centre and the
    clock at 0 its wave is [sin 0.1 * 0.1], not 0, its target angle is
    negative, and at 60 frames a second it does not settle to rotation 0. *)
Lemma C6_strip1_does_not_settle_flat :
  compression (rootState 0 0 0) = 0 /\
  wave (strip 1) (rootState 0 0 0) <> 0 /\
  angle (strip 1) (rootState 0 0 0) < 0 /\
  ~ settlesTo (strip 1) (rootState 0 0 0) (1 / 60) (mounted (strip 1))
      (mkStripSmoothingState 0 (flatCenterX (layout (strip 1))) 0 0).
Proof.
  assert (Hw : 0 < wave (strip 1) (rootState 0 0 0)).
  { apply idle_wave_positive. cbn. lia. }
  assert (Ha : angle (strip 1) (rootState 0 0 0) < 0).
  { unfold angle. unfold rootState at 1. rewrite idle_compression.
    unfold dir. cbn. lra. }
  split; [apply idle_compression|].
  split; [lra|]. split; [exact Ha|].
  intros (Hrot & _). cbn in Hrot.
  assert (Hcv := rotation_cv (strip 1) (rootState 0 0 0) (1 / 60)
                   (mounted (strip 1)) (mounted_meshRef (strip 1))).
  assert (Hd : 0 < 1 / 60 < 0.2) by lra.
  specialize (Hcv Hd).
  pose proof (UL_sequence _ _ _ Hcv Hrot). lra.
Qed.

Lemma dir_succ p p' : index p' = S (index p) -> dir p' = - dir p.
Proof.
  intros H. rewrite !dir_even, H, Nat.even_succ, <- Nat.negb_even.
  destruct (Nat.even (index p)); cbn; lra.
Qed.

Lemma cv_eventually_positive u l :
  Un_cv u l -> 0 < l -> exists N, forall n, (n >= N)%nat -> 0 < u n.
Proof.
  intros Hcv Hl. destruct (Hcv l Hl) as [N HN].
  exists N. intros n Hn. specialize (HN n Hn).
  unfold Rdist in HN. apply Rabs_def2 in HN. lra.
Qed.

Lemma cv_eventually_negative u l :
  Un_cv u l -> l < 0 -> exists N, forall n, (n >= N)%nat -> u n < 0.
Proof.
  intros Hcv Hl. destruct (Hcv (- l)) as [N HN]; [lra|].
  exists N. intros n Hn. specialize (HN n Hn).
  unfold Rdist in HN. apply Rabs_def2 in HN. lra.
Qed.

(** C8, as the program has it.  The target angle of a strip is [dir] times
    its fold magnitude [maxFoldAngle * compression + wave * 0.2], and the
    wave term can be negative.  For adjacent strips [i] and [i+1] under the
    same input, when both fold magnitudes are positive (which is the case as
    soon as [maxFoldAngle * compression > 0.02]) the target angles have
    opposite signs, positive on the even strip and negative on the odd one,
    and with a fixed frame delta between 0 and 0.2 so have the rotations
    from some frame on. *)
Theorem C8_direction_alternation
  (p p' : FoldStripProps) (st : RootState) (delta : R) (r0 r0' : Refs) :
  index p' = S (index p) ->
  meshRef r0 <> None ->
  meshRef r0' <> None ->
  0 < delta < 0.2 ->
  let fold q :=
    maxFoldAngle (globalConfig q) * compression st + wave q st * 0.2 in
  let d := if Nat.even (index p) then 1 else -1 in
  0 < fold p ->
  0 < fold p' ->
  (angle p st = d * fold p /\ angle p' st = - d * fold p') /\
  angle p st * angle p' st < 0 /\
  (0 < d * angle p st /\ d * angle p' st < 0) /\
  (exists N, forall n, (n >= N)%nat ->
     let a := currentRotationY (frames p st delta n r0) in
     let a' := currentRotationY (frames p' st delta n r0') in
     a * a' < 0 /\ 0 < d * a /\ d * a' < 0) /\
  (forall q,
     0.02 < maxFoldAngle (globalConfig q) * compression st -> 0 < fold q).
Proof.
  intros Hidx Hm Hm' Hd fold d Hf Hf'.
  assert (Hdir : dir p = d) by apply dir_even.
  assert (Hdir' : dir p' = - d) by (rewrite (dir_succ p p' Hidx); lra).
  assert (Ha : angle p st = d * fold p).
  { unfold angle, fold. now rewrite Hdir. }
  assert (Ha' : angle p' st = - d * fold p').
  { unfold angle, fold. now rewrite Hdir'. }
  assert (Hdd : d * d = 1) by (unfold d; destruct (Nat.even _); lra).
  assert (Hd1 : d = 1 \/ d = -1) by (unfold d; destruct (Nat.even _); auto).
  split; [split; assumption|].
  split; [rewrite Ha, Ha'; nra|].
  split; [rewrite Ha, Ha'; nra|].
  split.
  - pose proof (rotation_cv p st delta r0 Hm Hd) as Hcv.
    pose proof (rotation_cv p' st delta r0' Hm' Hd) as Hcv'.
    destruct Hd1 as [E | E]; rewrite E in *.
    + destruct (cv_eventually_positive _ _ Hcv) as [N HN]; [lra|].
      destruct (cv_eventually_negative _ _ Hcv') as [N' HN']; [lra|].
      exists (Nat.max N N'). intros n Hn a a'.
      assert (0 < a) by (apply HN; lia).
      assert (a' < 0) by (apply HN'; lia).
      nra.
    + destruct (cv_eventually_negative _ _ Hcv) as [N HN]; [lra|].
      destruct (cv_eventually_positive _ _ Hcv') as [N' HN']; [lra|].
      exists (Nat.max N N'). intros n Hn a a'.
      assert (a < 0) by (apply HN; lia).
      assert (0 < a') by (apply HN'; lia).
      nra.
  - intros q Hq. unfold fold.
    pose proof (wave_amplitude q st) as Hw. lra.
Qed.

Lemma C8_direction_alternation_witness :
  index (strip 1) = S (index (strip 0)) /\
  0 < 1 / 60 < 0.2 /\
  0 < maxFoldAngle (globalConfig (strip 0)) * compression (rootState 1 0 0)
      + wave (strip 0) (rootState 1 0 0) * 0.2 /\
  0 < maxFoldAngle (globalConfig (strip 1)) * compression (rootState 1 0 0)
      + wave (strip 1) (rootState 1 0 0) * 0.2 /\
  angle (strip 0) (rootState 1 0 0) * angle (strip 1) (rootState 1 0 0) < 0.
Proof.
  assert (Hd : 0 < 1 / 60 < 0.2) by lra.
  assert (Hc : compression (rootState 1 0 0) = 1).
  { apply compression_saturated. cbn. rewrite Rabs_R1. lra. }
  assert (Hf : forall i,
            0 < maxFoldAngle (globalConfig (strip i))
                * compression (rootState 1 0 0)
                + wave (strip i) (rootState 1 0 0) * 0.2).
  { intros i. rewrite Hc.
    pose proof (wave_amplitude (strip i) (rootState 1 0 0)) as Hw.
    cbn. lra. }
  split; [reflexivity|]. split; [exact Hd|].
  split; [apply Hf|]. split; [apply Hf|].
  apply (C8_direction_alternation (strip 0) (strip 1) (rootState 1 0 0)
           (1 / 60) (mounted (strip 0)) (mounted (strip 1))
           eq_refl (mounted_meshRef _) (mounted_meshRef _) Hd
           (Hf 0%nat) (Hf 1%nat)).
Defined.

(** C8 as stated fails.  With the pointer at the centre and the clock at 6.2
    the adjacent strips 0 and 1 both have a nonzero, positive target angle
    ([0.02 * sin 3.1] and [- 0.02 * sin 3.2]), and at 60 frames a second the
    rotations of both converge to these positive angles: the odd strip folds
    toward the positive side.  With the clock at 9 the even strip 0 has a
    negative target angle. *)
Lemma C8_adjacent_strips_same_sign :
  angle (strip 0) (rootState 0 0 6.2) <> 0 /\
  angle (strip 1) (rootState 0 0 6.2) <> 0 /\
  0 < angle (strip 0) (rootState 0 0 6.2) /\
  0 < angle (strip 1) (rootState 0 0 6.2) /\
  Un_cv (fun n => currentRotationY
           (frames (strip 0) (rootState 0 0 6.2) (1 / 60) n
                   (mounted (strip 0))))
        (angle (strip 0) (rootState 0 0 6.2)) /\
  Un_cv (fun n => currentRotationY
           (frames (strip 1) (rootState 0 0 6.2) (1 / 60) n
                   (mounted (strip 1))))
        (angle (strip 1) (rootState 0 0 6.2)) /\
  angle (strip 0) (rootState 0 0 9) < 0.
Proof.
  pose proof PI_bounds as HPI.
  assert (Hc : forall t, compression (rootState 0 0 t) = 0).
  { intros t. unfold compression. cbn. rewrite Rabs_R0.
    unfold Rmax, Rmin. repeat (destruct Rle_dec; try lra). }
  assert (H0 : 0 < angle (strip 0) (rootState 0 0 6.2)).
  { unfold angle. rewrite Hc. unfold dir, wave, time. cbn.
    assert (0 < sin (6.2 * 0.5 + 0 * 0.1)); [|lra].
    apply sin_gt_0; lra. }
  assert (H1 : 0 < angle (strip 1) (rootState 0 0 6.2)).
  { unfold angle. rewrite Hc. unfold dir, wave, time. cbn.
    assert (sin (6.2 * 0.5 + 1 * 0.1) < 0); [|lra].
    apply sin_lt_0; lra. }
  assert (H9 : angle (strip 0) (rootState 0 0 9) < 0).
  { unfold angle. rewrite Hc. unfold dir, wave, time. cbn.
    assert (sin (9 * 0.5 + 0 * 0.1) < 0); [|lra].
    apply sin_lt_0; lra. }
  assert (Hd : 0 < 1 / 60 < 0.2) by lra.
  split; [lra|]. split; [lra|]. split; [exact H0|]. split; [exact H1|].
  split; [|split; [|exact H9]].
  - apply rotation_cv; [apply mounted_meshRef | exact Hd].
  - apply rotation_cv; [apply mounted_meshRef | exact Hd].
Qed.

(** * Further properties of the frame callback and of the wall *)

(** ** The callback and the mesh *)

Lemma run_cons p f fs r :
  run p (f :: fs) r = run p fs (useFrame p (fst f) (snd f) r).
Proof. reflexivity. Qed.

Lemma run_snoc p fs f r :
  run p (fs ++ [f]) r = useFrame p (fst f) (snd f) (run p fs r).
Proof. unfold run. now rewrite fold_left_app. Qed.

Lemma run_attached p fs r :
  meshRef r <> None -> meshRef (run p fs r) <> None.
Proof.
  revert r. induction fs as [|f fs IH]; intros r Hm; [exact Hm|].
  rewrite run_cons. apply IH. now apply useFrame_step.
Qed.

(** Line 61.  While the mesh reference is empty the callback returns at once:
    over any sequence of frames neither cell is written and the reference
    stays empty. *)
Theorem unattached_strip_is_left_alone
  (p : FoldStripProps) (fs : list FrameInput) (r : Refs) :
  meshRef r = None -> run p fs r = r.
Proof.
  intros Hm. induction fs as [|f fs IH]; [reflexivity|].
  rewrite run_cons. unfold useFrame at 1. rewrite Hm. exact IH.
Qed.

Lemma unattached_strip_is_left_alone_witness :
  meshRef (mkRefs 1 2 None) = None /\
  run (strip 1) [(rootState 1 1 0, 1 / 60); (rootState 0 1 5, 1 / 30)]
      (mkRefs 1 2 None) = mkRefs 1 2 None.
Proof.
  split; [reflexivity|].
  apply (unattached_strip_is_left_alone (strip 1)
           [(rootState 1 1 0, 1 / 60); (rootState 0 1 5, 1 / 30)]
           (mkRefs 1 2 None) eq_refl).
Defined.

(** Lines 106 and 135.  After at least one frame on an attached mesh, the
    mesh's Y rotation is the rotation cell and the mesh's X position is the
    X cell, whatever the mesh held before. *)
Theorem mesh_mirrors_cells
  (p : FoldStripProps) (fs : list FrameInput) (r : Refs) :
  meshRef r <> None ->
  fs <> [] ->
  option_map THREE.rotation_y (meshRef (run p fs r)) =
    Some (targetRotation (run p fs r)) /\
  option_map THREE.position_x (meshRef (run p fs r)) =
    Some (targetX (run p fs r)).
Proof.
  intros Hm Hfs.
  destruct (exists_last Hfs) as (fs' & f & ->).
  rewrite run_snoc.
  pose proof (run_attached p fs' r Hm) as Hm'.
  unfold useFrame.
  destruct (meshRef (run p fs' r)) as [m|]; [|congruence].
  cbn. split; reflexivity.
Qed.

Lemma mesh_mirrors_cells_witness :
  meshRef (mounted (strip 2)) <> None /\
  [(rootState 1 0 0, 1 / 60)] <> [] /\
  option_map THREE.position_x
    (meshRef (run (strip 2) [(rootState 1 0 0, 1 / 60)] (mounted (strip 2)))) =
  Some (targetX (run (strip 2) [(rootState 1 0 0, 1 / 60)]
                     (mounted (strip 2)))).
Proof.
  assert (Hfs : [(rootState 1 0 0, 1 / 60)] <> []) by discriminate.
  split; [apply mounted_meshRef|]. split; [exact Hfs|].
  apply (mesh_mirrors_cells (strip 2) [(rootState 1 0 0, 1 / 60)]
           (mounted (strip 2)) (mounted_meshRef (strip 2)) Hfs).
Defined.

Lemma cos_abs_le_1 v : Rabs (cos v) <= 1.
Proof. pose proof (COS_bound v). apply Rabs_le. lra. Qed.

Lemma sin_abs_le_1 v : Rabs (sin v) <= 1.
Proof. pose proof (SIN_bound v). apply Rabs_le. lra. Qed.

(** Lines 51, 133-135 and 144.  The mesh is mounted at [initialX], but the X
    cell starts at 0, so the first frame moves the mesh to
    [8 * delta * initialX * cos |10 * delta * angle|]: for a delta below 1/8
    a strip that is not on the centre line starts strictly nearer to the
    centre line than where it was mounted. *)
Theorem first_frame_pulls_mesh_to_centre
  (p : FoldStripProps) (st : RootState) (delta : R) :
  0 <= delta < 1 / 8 ->
  initialX p <> 0 ->
  let r' := useFrame p st delta (mounted p) in
  option_map THREE.position_x (meshRef (mounted p)) = Some (initialX p) /\
  option_map THREE.position_x (meshRef r') =
    Some (8 * delta * (initialX p * cos (Rabs (10 * delta * angle p st)))) /\
  Rabs (currentPositionX r') < Rabs (initialX p).
Proof.
  intros Hd Hx r'.
  assert (E : currentPositionX r' =
              8 * delta * (initialX p * cos (Rabs (10 * delta * angle p st)))).
  { subst r'. cbn. unfold THREE.MathUtils.lerp.
    replace ((1 - 10 * delta) * 0 + 10 * delta * angle p st)
      with (10 * delta * angle p st) by ring.
    ring. }
  split; [reflexivity|]. split.
  { subst r'. cbn. unfold THREE.MathUtils.lerp. f_equal.
    replace ((1 - 10 * delta) * 0 + 10 * delta * angle p st)
      with (10 * delta * angle p st) by ring.
    ring. }
  rewrite E.
  pose proof (cos_abs_le_1 (Rabs (10 * delta * angle p st))) as Hc.
  set (c := cos (Rabs (10 * delta * angle p st))) in *.
  pose proof (Rabs_pos c) as Hc0.
  assert (Hi : 0 < Rabs (initialX p)) by (apply Rabs_pos_lt; exact Hx).
  rewrite !Rabs_mult.
  rewrite (Rabs_pos_eq 8) by lra.
  rewrite (Rabs_pos_eq delta) by lra.
  assert (Rabs (initialX p) * Rabs c <= Rabs (initialX p)) by nra.
  assert (8 * delta * (Rabs (initialX p) * Rabs c)
          <= 8 * delta * Rabs (initialX p)) by nra.
  nra.
Qed.

Lemma first_frame_pulls_mesh_to_centre_witness :
  0 <= 1 / 60 < 1 / 8 /\ initialX (strip 0) <> 0 /\
  Rabs (currentPositionX
          (useFrame (strip 0) (rootState 1 0 0) (1 / 60) (mounted (strip 0))))
  < Rabs (initialX (strip 0)).
Proof.
  assert (Hd : 0 <= 1 / 60 < 1 / 8) by lra.
  assert (Hx : initialX (strip 0) <> 0).
  { unfold initialX, stripWidth. cbn. lra. }
  split; [exact Hd|]. split; [exact Hx|].
  apply (first_frame_pulls_mesh_to_centre (strip 0) (rootState 1 0 0)
           (1 / 60) Hd Hx).
Defined.

(** Lines 67 and 90-91.  The viewport width enters [mouseX] alone, and
    [mouseX] only the unused [distToMouse] and [proximity]: root states that
    differ in nothing but the viewport width write the same cells. *)
Theorem viewport_never_reaches_cells
  (p : FoldStripProps) (elapsed px py vw vw' delta : R) (r : Refs) :
  useFrame p (mkRootState elapsed (THREE.mkVector2 px py) vw') delta r =
  useFrame p (mkRootState elapsed (THREE.mkVector2 px py) vw) delta r.
Proof. reflexivity. Qed.

(** ** One interpolation step, by the size of the frame delta *)

Lemma lerp_between x a t :
  0 <= t <= 1 ->
  Rmin x a <= THREE.MathUtils.lerp x a t <= Rmax x a.
Proof.
  intros Ht. unfold THREE.MathUtils.lerp, Rmin, Rmax.
  destruct (Rle_dec x a); nra.
Qed.

Lemma lerp_same_iff x a t :
  THREE.MathUtils.lerp x a t = x <-> t = 0 \/ x = a.
Proof.
  unfold THREE.MathUtils.lerp. split.
  - intros E. assert (E' : t * (a - x) = 0) by lra.
    apply Rmult_integral in E'. destruct E'; [left|right]; lra.
  - intros [-> | ->]; ring.
Qed.

Lemma useFrame_targets p st delta r :
  meshRef r <> None ->
  let r' := useFrame p st delta r in
  currentPositionX r' =
    THREE.MathUtils.lerp (currentPositionX r)
                         (newX p (currentRotationY r')) (8 * delta) /\
  currentPositionZ r' =
    THREE.MathUtils.lerp (currentPositionZ r)
                         (zOffset p (currentRotationY r')) (8 * delta).
Proof.
  intros Hm r'.
  destruct (useFrame_step p st delta r Hm) as (_ & HX & HZ & _).
  split; [exact HX | exact HZ].
Qed.

(** Lines 105, 133, 136 and 140.  With a frame delta between 0 and 0.1 no
    interpolation factor exceeds 1, and every smoothed component ends the
    frame between its previous value and its target: none passes its
    target. *)
Theorem small_delta_never_overshoots
  (p : FoldStripProps) (st : RootState) (delta : R) (r : Refs) :
  meshRef r <> None ->
  0 <= delta <= 0.1 ->
  let r' := useFrame p st delta r in
  let between lo v hi := Rmin lo hi <= v <= Rmax lo hi in
  between (currentRotationY r) (currentRotationY r') (angle p st) /\
  between (currentPositionX r) (currentPositionX r')
          (newX p (currentRotationY r')) /\
  between (currentPositionZ r) (currentPositionZ r')
          (zOffset p (currentRotationY r')) /\
  between (currentTiltX r) (currentTiltX r') (tilt st).
Proof.
  intros Hm Hd r' between.
  destruct (useFrame_step p st delta r Hm) as (HR & HX & HZ & HT & _).
  fold r' in HR, HX, HZ, HT. unfold between, newX, zOffset.
  split; [|split; [|split]].
  - rewrite HR. apply lerp_between. lra.
  - rewrite HX at 1 2. apply lerp_between. lra.
  - rewrite HZ at 1 2. apply lerp_between. lra.
  - rewrite HT. apply lerp_between. lra.
Qed.

Lemma small_delta_never_overshoots_witness :
  meshRef (mounted (strip 0)) <> None /\ 0 <= 1 / 60 <= 0.1 /\
  Rmin (currentRotationY (mounted (strip 0))) (angle (strip 0) (rootState 1 0 0))
  <= currentRotationY
       (useFrame (strip 0) (rootState 1 0 0) (1 / 60) (mounted (strip 0)))
  <= Rmax (currentRotationY (mounted (strip 0)))
          (angle (strip 0) (rootState 1 0 0)).
Proof.
  assert (Hd : 0 <= 1 / 60 <= 0.1) by lra.
  split; [apply mounted_meshRef|]. split; [exact Hd|].
  apply (small_delta_never_overshoots (strip 0) (rootState 1 0 0) (1 / 60)
           (mounted (strip 0)) (mounted_meshRef (strip 0)) Hd).
Defined.

(** Line 105.  With a frame delta above 0.1 the rotation factor exceeds 1
    and the rotation passes its target: after the frame the rotation lies
    strictly on the other side of the target angle. *)
Theorem large_delta_overshoots_rotation
  (p : FoldStripProps) (st : RootState) (delta : R) (r : Refs) :
  meshRef r <> None ->
  0.1 < delta ->
  currentRotationY r <> angle p st ->
  (currentRotationY (useFrame p st delta r) - angle p st)
  * (currentRotationY r - angle p st) < 0.
Proof.
  intros Hm Hd Hne.
  destruct (useFrame_step p st delta r Hm) as (HR & _).
  cbv zeta in HR. rewrite HR, lerp_error.
  assert (He : currentRotationY r - angle p st <> 0) by lra.
  pose proof (Rsqr_pos_lt _ He) as Hsq. unfold Rsqr in Hsq.
  nra.
Qed.

Lemma large_delta_overshoots_rotation_witness :
  meshRef (mounted (strip 0)) <> None /\ 0.1 < 0.15 /\
  currentRotationY (mounted (strip 0)) <> angle (strip 0) (rootState 1 0 0) /\
  (currentRotationY
     (useFrame (strip 0) (rootState 1 0 0) 0.15 (mounted (strip 0)))
   - angle (strip 0) (rootState 1 0 0))
  * (currentRotationY (mounted (strip 0))
     - angle (strip 0) (rootState 1 0 0)) < 0.
Proof.
  assert (Hd : 0.1 < 0.15) by lra.
  assert (Hne : currentRotationY (mounted (strip 0))
                <> angle (strip 0) (rootState 1 0 0)).
  { rewrite angle_strip0_right_edge. cbn. lra. }
  split; [apply mounted_meshRef|]. split; [exact Hd|]. split; [exact Hne|].
  apply (large_delta_overshoots_rotation (strip 0) (rootState 1 0 0) 0.15
           (mounted (strip 0)) (mounted_meshRef (strip 0)) Hd Hne).
Defined.

(** Lines 105-140.  Nothing guards the frame delta.  A delta of 0 leaves all
    four smoothed components where they were; a negative delta moves the
    rotation and the tilt away from their targets. *)
Theorem zero_and_negative_delta
  (p : FoldStripProps) (st : RootState) (r : Refs) :
  meshRef r <> None ->
  smoothingState (useFrame p st 0 r) = smoothingState r /\
  (forall delta, delta < 0 ->
     (currentRotationY r <> angle p st ->
      Rabs (currentRotationY r - angle p st) <
      Rabs (currentRotationY (useFrame p st delta r) - angle p st)) /\
     (currentTiltX r <> tilt st ->
      Rabs (currentTiltX r - tilt st) <
      Rabs (currentTiltX (useFrame p st delta r) - tilt st))).
Proof.
  intros Hm. split.
  - destruct (useFrame_step p st 0 r Hm) as (HR & HX & HZ & HT & _).
    cbv zeta in *. unfold smoothingState.
    rewrite HX, HZ, HT. rewrite HR at 1.
    replace (10 * 0) with 0 by ring. replace (8 * 0) with 0 by ring.
    replace (5 * 0) with 0 by ring.
    f_equal; apply lerp_same_iff; now left.
  - intros delta Hd.
    destruct (useFrame_step p st delta r Hm) as (HR & _ & _ & HT & _).
    cbv zeta in *.
    split; intros Hne.
    + rewrite HR, lerp_error, Rabs_mult.
      assert (0 < Rabs (currentRotationY r - angle p st))
        by (apply Rabs_pos_lt; lra).
      rewrite (Rabs_pos_eq (1 - 10 * delta)) by lra. nra.
    + rewrite HT, lerp_error, Rabs_mult.
      assert (0 < Rabs (currentTiltX r - tilt st))
        by (apply Rabs_pos_lt; lra).
      rewrite (Rabs_pos_eq (1 - 5 * delta)) by lra. nra.
Qed.

Lemma zero_and_negative_delta_witness :
  meshRef (mounted (strip 0)) <> None /\
  smoothingState (useFrame (strip 0) (rootState 1 1 0) 0 (mounted (strip 0)))
  = smoothingState (mounted (strip 0)).
Proof.
  split; [apply mounted_meshRef|].
  apply (zero_and_negative_delta (strip 0) (rootState 1 1 0)
           (mounted (strip 0)) (mounted_meshRef (strip 0))).
Defined.

(** Lines 102-140.  For a nonzero frame delta the callback leaves the four
    smoothed components of an attached strip unchanged exactly when they are
    the rest state of the frame's input: the rest state is the only fixed
    point. *)
Theorem rest_state_is_the_only_fixed_point
  (p : FoldStripProps) (st : RootState) (delta : R) (r : Refs) :
  meshRef r <> None ->
  delta <> 0 ->
  (smoothingState (useFrame p st delta r) = smoothingState r <->
   smoothingState r = restState p st).
Proof.
  intros Hm Hd.
  destruct (useFrame_step p st delta r Hm) as (HR & HX & HZ & HT & _).
  cbv zeta in *. unfold smoothingState, restState.
  split.
  - intros E. injection E as ER EX EZ ET.
    rewrite HR in ER. apply lerp_same_iff in ER.
    destruct ER as [ER|ER]; [lra|].
    assert (ER' : currentRotationY (useFrame p st delta r) = angle p st).
    { rewrite HR, ER. apply lerp_fixed. }
    rewrite HX, ER' in EX. apply lerp_same_iff in EX.
    destruct EX as [EX|EX]; [lra|].
    rewrite HZ, ER' in EZ. apply lerp_same_iff in EZ.
    destruct EZ as [EZ|EZ]; [lra|].
    rewrite HT in ET. apply lerp_same_iff in ET.
    destruct ET as [ET|ET]; [lra|].
    now rewrite ER, EX, EZ, ET.
  - intros E. injection E as ER EX EZ ET.
    assert (ER' : currentRotationY (useFrame p st delta r) = angle p st).
    { rewrite HR, ER. apply lerp_fixed. }
    rewrite HX, HZ, HT, ER'.
    rewrite ER, EX, EZ, ET. now rewrite !lerp_fixed.
Qed.

Lemma rest_state_is_the_only_fixed_point_witness :
  meshRef (attached 0 (initialX (strip 0)) 0 0 0 0) <> None /\
  1 / 60 <> 0 /\
  smoothingState
    (useFrame (strip 0) (mkRootState 0 (THREE.mkVector2 0 0) 16) (1 / 60)
              (attached 0 (initialX (strip 0)) 0 0 0 0)) =
  smoothingState (attached 0 (initialX (strip 0)) 0 0 0 0).
Proof.
  assert (Hm : meshRef (attached 0 (initialX (strip 0)) 0 0 0 0) <> None)
    by discriminate.
  assert (Hd : 1 / 60 <> 0) by lra.
  split; [exact Hm|]. split; [exact Hd|].
  apply (rest_state_is_the_only_fixed_point (strip 0)
           (mkRootState 0 (THREE.mkVector2 0 0) 16) (1 / 60)
           (attached 0 (initialX (strip 0)) 0 0 0 0) Hm Hd).
  unfold smoothingState, restState.
  rewrite idle_angle. unfold tilt, dir. cbn.
  rewrite Rmult_0_l, sin_0.
  replace (1 * (0 * 0.02)) with 0 by lra.
  rewrite Rabs_R0, cos_0, sin_0. f_equal; lra.
Defined.

(** ** Bounds the cells keep *)

Lemma Rabs_dir p : Rabs (dir p) = 1.
Proof.
  unfold dir. destruct (_ =? _)%nat; [apply Rabs_R1 | apply Rabs_m1].
Qed.

Lemma angle_bounded p st : Rabs (angle p st) <= angleBound p.
Proof.
  unfold angle, angleBound. rewrite Rabs_mult, Rabs_dir, Rmult_1_l.
  eapply Rle_trans; [apply Rabs_triang|].
  pose proof (compression_range st) as [Hc0 Hc1].
  pose proof (wave_amplitude p st) as Hw.
  apply Rplus_le_compat.
  - rewrite Rabs_mult, (Rabs_pos_eq (compression st)) by exact Hc0.
    pose proof (Rabs_pos (maxFoldAngle (globalConfig p))). nra.
  - apply Rabs_le. lra.
Qed.

Lemma lerp_abs_bound x a t B :
  0 <= t <= 1 -> Rabs x <= B -> Rabs a <= B ->
  Rabs (THREE.MathUtils.lerp x a t) <= B.
Proof.
  intros Ht Hx Ha. unfold THREE.MathUtils.lerp.
  assert (HxB : - B <= x <= B).
  { revert Hx. unfold Rabs. destruct Rcase_abs; lra. }
  assert (HaB : - B <= a <= B).
  { revert Ha. unfold Rabs. destruct Rcase_abs; lra. }
  apply Rabs_le. split; nra.
Qed.

Lemma newX_bounded p rot : Rabs (newX p rot) <= Rabs (initialX p).
Proof.
  unfold newX. rewrite Rabs_mult.
  pose proof (cos_abs_le_1 (Rabs rot)).
  pose proof (Rabs_pos (cos (Rabs rot))).
  pose proof (Rabs_pos (initialX p)). nra.
Qed.

Lemma zOffset_bounded p rot :
  Rabs (zOffset p rot) <= Rabs (stripWidth p) * 0.25.
Proof.
  unfold zOffset. rewrite !Rabs_mult, Rabs_dir, Rmult_1_r.
  rewrite (Rabs_pos_eq 0.25) by lra.
  pose proof (sin_abs_le_1 (Rabs rot)).
  pose proof (Rabs_pos (sin (Rabs rot))).
  pose proof (Rabs_pos (stripWidth p)). nra.
Qed.

(** Lines 84-105.  The target angle never exceeds [|maxFoldAngle| + 0.02] in
    magnitude; as long as every frame delta lies between 0 and 0.1, a rotation
    within that bound stays within it over any sequence of frames, whatever
    the pointer and the clock do. *)
Theorem rotation_stays_within_fold_bound
  (p : FoldStripProps) (fs : list FrameInput) (r : Refs) :
  Forall (fun f => 0 <= snd f <= 0.1) fs ->
  Rabs (currentRotationY r) <= angleBound p ->
  (forall st, Rabs (angle p st) <= angleBound p) /\
  Rabs (currentRotationY (run p fs r)) <= angleBound p.
Proof.
  intros Hfs Hr. split; [apply angle_bounded|].
  revert r Hr. induction Hfs as [|f fs Hf Hfs IH]; intros r Hr; [exact Hr|].
  rewrite run_cons. apply IH.
  unfold useFrame. destruct (meshRef r); [|exact Hr].
  cbn. apply lerp_abs_bound; [lra | exact Hr | apply angle_bounded].
Qed.

Lemma rotation_stays_within_fold_bound_witness :
  Forall (fun f : FrameInput => 0 <= snd f <= 0.1)
         [(rootState 1 0 0, 1 / 60); (rootState (-1) 1 7, 0.1)] /\
  Rabs (currentRotationY (mounted (strip 3))) <= angleBound (strip 3) /\
  Rabs (currentRotationY
          (run (strip 3) [(rootState 1 0 0, 1 / 60); (rootState (-1) 1 7, 0.1)]
               (mounted (strip 3)))) <= angleBound (strip 3).
Proof.
  assert (Hfs : Forall (fun f : FrameInput => 0 <= snd f <= 0.1)
                  [(rootState 1 0 0, 1 / 60); (rootState (-1) 1 7, 0.1)]).
  { repeat constructor; cbn; lra. }
  assert (Hr : Rabs (currentRotationY (mounted (strip 3)))
               <= angleBound (strip 3)).
  { cbn. rewrite Rabs_R0. unfold angleBound.
    pose proof (Rabs_pos (maxFoldAngle (globalConfig (strip 3)))). lra. }
  split; [exact Hfs|]. split; [exact Hr|].
  apply (rotation_stays_within_fold_bound (strip 3) _ _ Hfs Hr).
Defined.

(** Lines 115-136.  Whatever the rotation, the X target is no farther from
    the centre line than the strip's flat centre and the Z target is at most
    a quarter of the strip width; as long as every frame delta lies between 0
    and 1/8, positions within these bounds stay within them over any sequence
    of frames. *)
Theorem positions_stay_within_flat_extent
  (p : FoldStripProps) (fs : list FrameInput) (r : Refs) :
  Forall (fun f => 0 <= snd f <= 1 / 8) fs ->
  Rabs (currentPositionX r) <= Rabs (initialX p) ->
  Rabs (currentPositionZ r) <= Rabs (stripWidth p) * 0.25 ->
  Rabs (currentPositionX (run p fs r)) <= Rabs (initialX p) /\
  Rabs (currentPositionZ (run p fs r)) <= Rabs (stripWidth p) * 0.25.
Proof.
  intros Hfs. revert r.
  induction Hfs as [|f fs Hf Hfs IH]; intros r HX HZ; [split; assumption|].
  rewrite run_cons.
  destruct (meshRef r) as [m|] eqn:Hm.
  - assert (Hm' : meshRef r <> None) by congruence.
    destruct (useFrame_targets p (fst f) (snd f) r Hm') as (EX & EZ).
    cbv zeta in EX, EZ.
    apply IH.
    + rewrite EX. apply lerp_abs_bound; [lra | exact HX | apply newX_bounded].
    + rewrite EZ.
      apply lerp_abs_bound; [lra | exact HZ | apply zOffset_bounded].
  - apply IH; unfold useFrame; rewrite Hm; assumption.
Qed.

Lemma positions_stay_within_flat_extent_witness :
  Forall (fun f : FrameInput => 0 <= snd f <= 1 / 8)
         [(rootState 1 0 0, 1 / 60); (rootState (-1) 1 7, 0.1)] /\
  Rabs (currentPositionX (mounted (strip 3))) <= Rabs (initialX (strip 3)) /\
  Rabs (currentPositionZ (mounted (strip 3)))
  <= Rabs (stripWidth (strip 3)) * 0.25 /\
  Rabs (currentPositionX
          (run (strip 3) [(rootState 1 0 0, 1 / 60); (rootState (-1) 1 7, 0.1)]
               (mounted (strip 3)))) <= Rabs (initialX (strip 3)).
Proof.
  assert (Hfs : Forall (fun f : FrameInput => 0 <= snd f <= 1 / 8)
                  [(rootState 1 0 0, 1 / 60); (rootState (-1) 1 7, 0.1)]).
  { repeat constructor; cbn; lra. }
  assert (HX : Rabs (currentPositionX (mounted (strip 3)))
               <= Rabs (initialX (strip 3))).
  { cbn. rewrite Rabs_R0. apply Rabs_pos. }
  assert (HZ : Rabs (currentPositionZ (mounted (strip 3)))
               <= Rabs (stripWidth (strip 3)) * 0.25).
  { cbn. rewrite Rabs_R0. pose proof (Rabs_pos (stripWidth (strip 3))). lra. }
  split; [exact Hfs|]. split; [exact HX|]. split; [exact HZ|].
  apply (positions_stay_within_flat_extent (strip 3) _ _ Hfs HX HZ).
Defined.

(** Lines 139-140.  With the pointer's Y coordinate in [-1, 1] and every
    frame delta between 0 and 0.2, a tilt of magnitude at most 0.2 stays at
    most 0.2 over any sequence of frames. *)
Theorem tilt_stays_within_a_fifth
  (p : FoldStripProps) (fs : list FrameInput) (r : Refs) :
  Forall (fun f => 0 <= snd f <= 0.2 /\
                   -1 <= THREE.y (pointer (fst f)) <= 1) fs ->
  Rabs (currentTiltX r) <= 0.2 ->
  Rabs (currentTiltX (run p fs r)) <= 0.2.
Proof.
  intros Hfs. revert r.
  induction Hfs as [|f fs [Hd Hy] Hfs IH]; intros r Hr; [exact Hr|].
  rewrite run_cons. apply IH.
  destruct (meshRef r) as [m|] eqn:Hm.
  - assert (Hm' : meshRef r <> None) by congruence.
    destruct (useFrame_step p (fst f) (snd f) r Hm') as (_ & _ & _ & ET & _).
    cbv zeta in ET. rewrite ET.
    apply lerp_abs_bound; [lra | exact Hr |].
    unfold tilt. apply Rabs_le. lra.
  - unfold useFrame. rewrite Hm. exact Hr.
Qed.

Lemma tilt_stays_within_a_fifth_witness :
  Forall (fun f : FrameInput =>
            0 <= snd f <= 0.2 /\ -1 <= THREE.y (pointer (fst f)) <= 1)
         [(rootState 1 1 0, 1 / 60); (rootState 0 (-1) 7, 0.2)] /\
  Rabs (currentTiltX (mounted (strip 3))) <= 0.2 /\
  Rabs (currentTiltX
          (run (strip 3) [(rootState 1 1 0, 1 / 60); (rootState 0 (-1) 7, 0.2)]
               (mounted (strip 3)))) <= 0.2.
Proof.
  assert (Hfs : Forall (fun f : FrameInput =>
                    0 <= snd f <= 0.2 /\ -1 <= THREE.y (pointer (fst f)) <= 1)
                  [(rootState 1 1 0, 1 / 60); (rootState 0 (-1) 7, 0.2)]).
  { repeat constructor; cbn; lra. }
  assert (Hr : Rabs (currentTiltX (mounted (strip 3))) <= 0.2).
  { cbn. rewrite Rabs_R0. lra. }
  split; [exact Hfs|]. split; [exact Hr|].
  apply (tilt_stays_within_a_fifth (strip 3) _ _ Hfs Hr).
Defined.

(** ** The scene's maximal fold angle *)

Lemma scene_strip tex p :
  In p (FoldingWall sceneConfig tex) ->
  exists i, (i < 24)%nat /\
            p = mkFoldStripProps i 24 tex 12 8 (mkGlobalConfig (PI / 2.2)).
Proof.
  unfold FoldingWall, strips. intros H. apply in_map_iff in H.
  destruct H as (i & <- & Hi). apply in_seq in Hi.
  exists i. split; [|reflexivity].
  change (stripCount sceneConfig) with 24%nat in Hi. lia.
Qed.

(** Scene3D.tsx line 43 with FoldStrip.tsx lines 102-124.  The scene passes
    [PI / 2.2] as maximal fold angle ("almost 90 degrees max").  For every
    one of its strips, started as mounted and run through frames whose deltas
    lie between 0 and 0.1, the rotation stays strictly below a right angle in
    magnitude, so the projected width stays positive and the X target stays
    on the strip's own side of the centre line. *)
Theorem scene_strips_stay_short_of_edge_on
  (tex : THREE.Texture) (p : FoldStripProps) (fs : list FrameInput) :
  In p (FoldingWall sceneConfig tex) ->
  Forall (fun f => 0 <= snd f <= 0.1) fs ->
  let rot := currentRotationY (run p fs (mounted p)) in
  Rabs rot <= PI / 2.2 + 0.02 /\
  Rabs rot < PI / 2 /\
  0 < projectedWidth p rot /\
  0 <= initialX p * newX p rot /\
  (initialX p <> 0 -> 0 < initialX p * newX p rot).
Proof.
  intros Hp Hfs rot.
  destruct (scene_strip tex p Hp) as (i & Hi & E).
  pose proof PI_bounds as HPI.
  assert (HB : angleBound p = PI / 2.2 + 0.02).
  { rewrite E. unfold angleBound, globalConfig, maxFoldAngle.
    rewrite Rabs_pos_eq; lra. }
  assert (Hrot : Rabs rot <= PI / 2.2 + 0.02).
  { rewrite <- HB. apply rotation_stays_within_fold_bound; [exact Hfs|].
    cbn. rewrite Rabs_R0. unfold angleBound.
    pose proof (Rabs_pos (maxFoldAngle (globalConfig p))). lra. }
  assert (Hlt : Rabs rot < PI / 2) by lra.
  assert (Hcos : 0 < cos (Rabs rot)).
  { pose proof (Rabs_pos rot). apply cos_gt_0; lra. }
  split; [exact Hrot|]. split; [exact Hlt|]. split.
  { unfold projectedWidth. fold rot.
    assert (stripWidth p = 0.5) by (rewrite E; unfold stripWidth; cbn; lra).
    nra. }
  unfold newX. fold rot.
  split.
  - pose proof (Rle_0_sqr (initialX p)) as Hs. unfold Rsqr in Hs. nra.
  - intros Hne. pose proof (Rsqr_pos_lt _ Hne) as Hs. unfold Rsqr in Hs. nra.
Qed.

Lemma scene_strips_stay_short_of_edge_on_witness :
  In (mkFoldStripProps 5 24 plainTexture 12 8 (mkGlobalConfig (PI / 2.2)))
     (FoldingWall sceneConfig plainTexture) /\
  Forall (fun f : FrameInput => 0 <= snd f <= 0.1)
         [(rootState 1 0 0, 1 / 60)] /\
  Rabs (currentRotationY
          (run (mkFoldStripProps 5 24 plainTexture 12 8
                                 (mkGlobalConfig (PI / 2.2)))
               [(rootState 1 0 0, 1 / 60)]
               (mounted (mkFoldStripProps 5 24 plainTexture 12 8
                                          (mkGlobalConfig (PI / 2.2))))))
  < PI / 2.
Proof.
  assert (Hp : In (mkFoldStripProps 5 24 plainTexture 12 8
                                    (mkGlobalConfig (PI / 2.2)))
                  (FoldingWall sceneConfig plainTexture)).
  { unfold FoldingWall, strips. apply in_map_iff. exists 5%nat.
    split; [reflexivity|]. apply in_seq.
    change (stripCount sceneConfig) with 24%nat. lia. }
  assert (Hfs : Forall (fun f : FrameInput => 0 <= snd f <= 0.1)
                  [(rootState 1 0 0, 1 / 60)]).
  { repeat constructor; cbn; lra. }
  split; [exact Hp|]. split; [exact Hfs|].
  apply (scene_strips_stay_short_of_edge_on plainTexture _ _ Hp Hfs).
Defined.

(** ** Symmetries of the input *)

(** Line 100.  Only the magnitude of the pointer's X coordinate is read:
    mirroring the pointer left to right changes nothing in what the frame
    writes. *)
Theorem pointer_mirror_symmetry
  (p : FoldStripProps) (elapsed px py vw delta : R) (r : Refs) :
  useFrame p (mkRootState elapsed (THREE.mkVector2 (- px) py) vw) delta r =
  useFrame p (mkRootState elapsed (THREE.mkVector2 px py) vw) delta r.
Proof.
  unfold useFrame, angle, compression, wave, time, tilt. cbn.
  rewrite Rabs_Ropp. reflexivity.
Qed.

(** Line 84.  The clock enters through [sin (time * 0.5 + ...)] only, so the
    callback has period [4 * PI] in the elapsed time: root states whose
    clocks differ by a multiple of [4 * PI] write the same cells. *)
Theorem clock_period_four_pi
  (p : FoldStripProps) (elapsed px py vw delta : R) (k : nat) (r : Refs) :
  useFrame p (mkRootState (elapsed + INR k * (4 * PI))
                          (THREE.mkVector2 px py) vw) delta r =
  useFrame p (mkRootState elapsed (THREE.mkVector2 px py) vw) delta r.
Proof.
  assert (Hw : forall st st',
            wave p st = wave p st' -> compression st = compression st' ->
            tilt st = tilt st' ->
            useFrame p st delta r = useFrame p st' delta r).
  { intros st st' Hw Hc Ht. unfold useFrame, angle. now rewrite Hw, Hc, Ht. }
  apply Hw; try reflexivity.
  unfold wave, time. cbn. f_equal.
  replace ((elapsed + INR k * (4 * PI)) * 0.5 + INR (index p) * 0.1)
    with (elapsed * 0.5 + INR (index p) * 0.1 + 2 * INR k * PI) by lra.
  apply sin_period.
Qed.

(** Lines 84 and 95-102.  The wave travels across the wall: strip [i + 2]
    has, at elapsed time [t], the target angle that strip [i] has at
    [t + 0.4] (same parity, hence same direction; same fold angle; same
    pointer). *)
Theorem fold_pattern_travels
  (p q : FoldStripProps) (elapsed px py vw vw' : R) :
  index q = (index p + 2)%nat ->
  maxFoldAngle (globalConfig q) = maxFoldAngle (globalConfig p) ->
  dir q = dir p /\
  wave q (mkRootState elapsed (THREE.mkVector2 px py) vw) =
  wave p (mkRootState (elapsed + 0.4) (THREE.mkVector2 px py) vw') /\
  angle q (mkRootState elapsed (THREE.mkVector2 px py) vw) =
  angle p (mkRootState (elapsed + 0.4) (THREE.mkVector2 px py) vw').
Proof.
  intros Hi Hm.
  assert (Hd : dir q = dir p).
  { rewrite !dir_even, Hi.
    replace (index p + 2)%nat with (S (S (index p))) by lia.
    now rewrite Nat.even_succ_succ. }
  assert (Hw : wave q (mkRootState elapsed (THREE.mkVector2 px py) vw) =
               wave p (mkRootState (elapsed + 0.4)
                                   (THREE.mkVector2 px py) vw')).
  { unfold wave, time. cbn. rewrite Hi, plus_INR. cbn. f_equal. f_equal.
    lra. }
  split; [exact Hd|]. split; [exact Hw|].
  unfold angle. rewrite Hd, Hm, Hw. reflexivity.
Qed.

Lemma fold_pattern_travels_witness :
  index (strip 2) = (index (strip 0) + 2)%nat /\
  maxFoldAngle (globalConfig (strip 2)) =
  maxFoldAngle (globalConfig (strip 0)) /\
  angle (strip 2) (mkRootState 1 (THREE.mkVector2 0.5 0) 16) =
  angle (strip 0) (mkRootState (1 + 0.4) (THREE.mkVector2 0.5 0) 16).
Proof.
  split; [reflexivity|]. split; [reflexivity|].
  apply (fold_pattern_travels (strip 0) (strip 2) 1 0.5 0 16 16
           eq_refl eq_refl).
Defined.

(** ** Geometry of the wall *)

(** Lines 53-58.  The wall is centred on 0: strips [i] and [N - 1 - i] of
    the same wall have opposite flat centres, and a strip that is its own
    mirror image (the middle strip of an odd count) sits at 0. *)
Theorem layout_is_mirror_symmetric (p q : FoldStripProps) :
  (0 < totalStrips p)%nat ->
  totalStrips q = totalStrips p ->
  width q = width p ->
  (index p + index q + 1 = totalStrips p)%nat ->
  initialX q = - initialX p /\
  (index q = index p -> initialX p = 0).
Proof.
  intros HN HNq HW Hij.
  assert (HNR : 0 < INR (totalStrips p)) by (apply lt_0_INR; exact HN).
  assert (HS : INR (index p) + INR (index q) + 1 = INR (totalStrips p)).
  { rewrite <- Hij, !plus_INR. cbn. lra. }
  assert (Hmirror : initialX q = - initialX p).
  { unfold initialX, stripWidth. rewrite HNq, HW.
    replace (INR (index q))
      with (INR (totalStrips p) - INR (index p) - 1) by lra.
    field. lra. }
  split; [exact Hmirror|].
  intros E. unfold initialX, stripWidth in *. rewrite HNq, HW, E in Hmirror.
  lra.
Qed.

Lemma layout_is_mirror_symmetric_witness :
  (0 < totalStrips (strip 1))%nat /\
  totalStrips (strip 2) = totalStrips (strip 1) /\
  width (strip 2) = width (strip 1) /\
  (index (strip 1) + index (strip 2) + 1 = totalStrips (strip 1))%nat /\
  initialX (strip 2) = - initialX (strip 1).
Proof.
  assert (HN : (0 < totalStrips (strip 1))%nat) by (cbn; lia).
  split; [exact HN|]. repeat (split; [reflexivity|]).
  apply (layout_is_mirror_symmetric (strip 1) (strip 2) HN
           eq_refl eq_refl eq_refl).
Defined.



(** Lines 126-130.  While the rotation is at most [PI] in magnitude and the
    wall width is not negative, the Z target lies on the side the strip's
    direction points to: even strips toward the viewer, odd strips away. *)
Theorem depth_offset_follows_direction (p : FoldStripProps) (rot : R) :
  0 <= width p ->
  Rabs rot <= PI ->
  0 <= dir p * zOffset p rot /\
  ((index p mod 2 =? 0)%nat = true -> 0 <= zOffset p rot) /\
  ((index p mod 2 =? 0)%nat = false -> zOffset p rot <= 0).
Proof.
  intros HW Hr.
  assert (Hs : 0 <= sin (Rabs rot)).
  { apply sin_ge_0; [apply Rabs_pos | exact Hr]. }
  assert (Hsw : 0 <= stripWidth p).
  { unfold stripWidth, Rdiv.
    apply Rmult_le_pos; [exact HW|].
    destruct (totalStrips p) as [|n].
    - cbn. rewrite Rinv_0. lra.
    - left. apply Rinv_0_lt_compat, lt_0_INR. lia. }
  assert (Hz : 0 <= sin (Rabs rot) * (stripWidth p * 0.25)) by nra.
  unfold zOffset, dir.
  destruct (index p mod 2 =? 0)%nat; repeat split;
    try discriminate; intros; nra.
Qed.

Lemma depth_offset_follows_direction_witness :
  0 <= width (strip 1) /\ Rabs 1 <= PI /\ zOffset (strip 1) 1 <= 0.
Proof.
  pose proof PI_bounds as HPI.
  assert (HW : 0 <= width (strip 1)) by (cbn; lra).
  assert (Hr : Rabs 1 <= PI) by (rewrite Rabs_R1; lra).
  split; [exact HW|]. split; [exact Hr|].
  destruct (depth_offset_follows_direction (strip 1) 1 HW Hr)
    as (_ & _ & H).
  apply H. reflexivity.
Defined.

Lemma sum_constant (c : R) (l : list nat) :
  fold_right Rplus 0 (map (fun _ => c) l) = INR (length l) * c.
Proof.
  induction l as [|a l IH]; [cbn; ring|].
  cbn [map fold_right length]. rewrite IH, S_INR. ring.
Qed.

(** Scene3D.tsx lines 30-46.  The wall hands every strip the same
    dimensions, texture and fold angle; the indices (which are also the
    React keys) are pairwise distinct and below [totalStrips], which is the
    number of strips; and the strip widths add up to the wall width. *)
Theorem FoldingWall_strips_are_consistent
  (cfg : WallConfig) (tex : THREE.Texture) :
  NoDup (map index (FoldingWall cfg tex)) /\
  Forall (fun p =>
            (index p < totalStrips p)%nat /\
            totalStrips p = length (FoldingWall cfg tex) /\
            width p = wallWidth cfg /\ height p = wallHeight cfg /\
            texture p = tex /\
            maxFoldAngle (globalConfig p) = wallMaxFoldAngle cfg)
         (FoldingWall cfg tex) /\
  ((0 < stripCount cfg)%nat ->
   fold_right Rplus 0 (map stripWidth (FoldingWall cfg tex)) =
   wallWidth cfg).
Proof.
  split; [|split].
  - unfold FoldingWall, strips. rewrite map_map. cbn.
    rewrite map_id. apply seq_NoDup.
  - rewrite FoldingWall_length. unfold FoldingWall, strips.
    apply Forall_forall. intros p Hp. apply in_map_iff in Hp.
    destruct Hp as (i & <- & Hi). apply in_seq in Hi. cbn.
    repeat split. lia.
  - intros HN. unfold FoldingWall, strips. rewrite map_map.
    unfold stripWidth. cbn [width totalStrips].
    rewrite sum_constant, length_seq.
    field. apply Rgt_not_eq, lt_0_INR. exact HN.
Qed.

Lemma FoldingWall_strips_are_consistent_witness :
  (0 < stripCount sceneConfig)%nat /\
  fold_right Rplus 0 (map stripWidth (FoldingWall sceneConfig plainTexture)) =
  wallWidth sceneConfig.
Proof.
  assert (HN : (0 < stripCount sceneConfig)%nat).
  { change (stripCount sceneConfig) with 24%nat. lia. }
  split; [exact HN|].
  destruct (FoldingWall_strips_are_consistent sceneConfig plainTexture)
    as (_ & _ & H).
  exact (H HN).
Defined.

(** Lines 37-45.  The strip's texture is set from the strip's index and
    count alone: whatever window the source texture had is overwritten, the
    window spans the full height, and for an index below the strip count it
    lies inside [0,1] horizontally and has positive width. *)
Theorem stripTexture_window
  (i n : nat) (tex tex' : THREE.Texture) (w h w' h' : R)
  (g g' : GlobalConfig) :
  let t := stripTexture (mkFoldStripProps i n tex w h g) in
  t = stripTexture (mkFoldStripProps i n tex' w' h' g') /\
  THREE.y (THREE.repeat t) = 1 /\ THREE.y (THREE.offset t) = 0 /\
  ((i < n)%nat ->
   0 <= THREE.x (THREE.offset t) /\
   0 < THREE.x (THREE.repeat t) /\
   THREE.x (THREE.offset t) + THREE.x (THREE.repeat t) <= 1).
Proof.
  intros t. subst t. unfold stripTexture. cbn -[INR].
  repeat split.
  - apply Rmult_le_pos; [apply pos_INR|].
    left. apply Rinv_0_lt_compat, lt_0_INR. lia.
  - apply Rdiv_lt_0_compat; [lra | apply lt_0_INR; lia].
  - assert (HN : 0 < INR n) by (apply lt_0_INR; lia).
    assert (Hi : INR i + 1 <= INR n).
    { rewrite <- S_INR. apply le_INR. lia. }
    replace (INR i / INR n + 1 / INR n) with ((INR i + 1) / INR n)
      by (field; lra).
    apply (Rmult_le_reg_r (INR n)); [exact HN|].
    replace ((INR i + 1) / INR n * INR n) with (INR i + 1) by (field; lra).
    lra.
Qed.

Lemma stripTexture_window_witness :
  (3 < 4)%nat /\
  THREE.x (THREE.offset (stripTexture (strip 3)))
  + THREE.x (THREE.repeat (stripTexture (strip 3))) <= 1.
Proof.
  assert (Hi : (3 < 4)%nat) by lia.
  split; [exact Hi|].
  destruct (stripTexture_window 3 4 plainTexture plainTexture 8 4 8 4
              (mkGlobalConfig 1) (mkGlobalConfig 1)) as (_ & _ & _ & H).
  apply (H Hi).
Defined.

(** Lines 67-91.  The pointer factors the callback computes and then leaves
    unused are normalised as their comments say: for a pointer X in [-1, 1],
    a viewport width that is not negative and a positive wall width,
    [mouseX] lies within half the viewport width of the centre,
    [mouseInfluence] lies in [0, 1], and [proximity] lies in [0, 1], being 1
    exactly when the pointer is over the strip's flat centre and 0 exactly
    from a distance of 0.8 wall widths on. *)
Theorem unused_pointer_factors_are_normalised
  (p : FoldStripProps) (st : RootState) :
  -1 <= THREE.x (pointer st) <= 1 ->
  0 <= viewport_width st ->
  0 < width p ->
  - viewport_width st / 2 <= mouseX st <= viewport_width st / 2 /\
  0 <= mouseInfluence st <= 1 /\
  0 <= proximity p st <= 1 /\
  (proximity p st = 1 <-> mouseX st = initialX p) /\
  (proximity p st = 0 <-> width p * 0.8 <= distToMouse p st).
Proof.
  intros Hx Hv HW.
  assert (Hd : 0 <= distToMouse p st) by apply Rabs_pos.
  assert (Hq : 0 <= distToMouse p st / (width p * 0.8)).
  { apply Rmult_le_pos; [exact Hd|]. left. apply Rinv_0_lt_compat. lra. }
  assert (Hq0 : distToMouse p st / (width p * 0.8) = 0 <->
                distToMouse p st = 0).
  { split; intros E.
    - apply (Rmult_eq_reg_r (/ (width p * 0.8)));
        [|apply Rinv_neq_0_compat; lra].
      unfold Rdiv in E. lra.
    - unfold Rdiv. rewrite E. ring. }
  assert (Hq1 : 1 <= distToMouse p st / (width p * 0.8) <->
                width p * 0.8 <= distToMouse p st).
  { split; intros E.
    - apply (Rmult_le_compat_r (width p * 0.8)) in E; [|lra].
      replace (distToMouse p st / (width p * 0.8) * (width p * 0.8))
        with (distToMouse p st) in E by (field; lra).
      lra.
    - apply (Rmult_le_reg_r (width p * 0.8)); [lra|].
      replace (distToMouse p st / (width p * 0.8) * (width p * 0.8))
        with (distToMouse p st) by (field; lra).
      lra. }
  split; [unfold mouseX; split; nra|].
  split; [unfold mouseInfluence, normMouse; lra|].
  unfold proximity, Rmax.
  destruct (Rle_dec 0 (1 - distToMouse p st / (width p * 0.8)))
    as [H|H].
  - split; [lra|]. split.
    + split.
      * intros E. assert (E0 : distToMouse p st = 0) by (apply Hq0; lra).
        unfold distToMouse in E0.
        destruct (Req_dec (initialX p - mouseX st) 0) as [Z|Z]; [lra|].
        apply Rabs_no_R0 in Z. contradiction.
      * intros E. assert (E0 : distToMouse p st = 0).
        { unfold distToMouse. rewrite E, Rminus_diag. apply Rabs_R0. }
        apply Hq0 in E0. lra.
    + split; intros E; [apply Hq1; lra | apply Hq1 in E; lra].
  - split; [lra|]. split.
    + split; [lra|].
      intros E. exfalso. apply H.
      assert (E0 : distToMouse p st = 0).
      { unfold distToMouse. rewrite E, Rminus_diag. apply Rabs_R0. }
      apply Hq0 in E0. lra.
    + split; [intros _; apply Hq1; lra | reflexivity].
Qed.

Lemma unused_pointer_factors_are_normalised_witness :
  -1 <= THREE.x (pointer (rootState 0.5 0 0)) <= 1 /\
  0 <= viewport_width (rootState 0.5 0 0) /\
  0 < width (strip 0) /\
  0 <= proximity (strip 0) (rootState 0.5 0 0) <= 1.
Proof.
  assert (Hx : -1 <= THREE.x (pointer (rootState 0.5 0 0)) <= 1)
    by (cbn; lra).
  assert (Hv : 0 <= viewport_width (rootState 0.5 0 0)) by (cbn; lra).
  assert (HW : 0 < width (strip 0)) by (cbn; lra).
  split; [exact Hx|]. split; [exact Hv|]. split; [exact HW|].
  apply (unused_pointer_factors_are_normalised (strip 0) (rootState 0.5 0 0)
           Hx Hv HW).
Defined.

(** Lines 115-130.  As the rotation varies, the pair of position targets
    moves on the ellipse whose half-axes are the strip's flat centre (along
    X) and a quarter of the strip width (along Z). *)
Theorem position_targets_lie_on_an_ellipse (p : FoldStripProps) (rot : R) :
  (newX p rot * (stripWidth p * 0.25)) ^ 2
  + (zOffset p rot * initialX p) ^ 2
  = (initialX p * (stripWidth p * 0.25)) ^ 2.
Proof.
  unfold newX, zOffset.
  pose proof (sin2_cos2 (Rabs rot)) as H. unfold Rsqr in H.
  assert (Hd : dir p * dir p = 1).
  { unfold dir. destruct (_ =? _)%nat; lra. }
  set (s := sin (Rabs rot)) in *. set (c := cos (Rabs rot)) in *.
  set (a := initialX p). set (b := stripWidth p * 0.25). set (d := dir p) in *.
  replace ((a * c * b) ^ 2 + (s * b * d * a) ^ 2)
    with ((a * b) ^ 2 * (c * c + s * s * (d * d))) by ring.
  rewrite Hd. replace (c * c + s * s * 1) with (s * s + c * c) by ring.
  rewrite H. ring.
Qed.
